(** * colorsort: dominant colours of analysed images and the hue sort

    A shallow embedding of [colorsort/analyzed_image.py]: the class
    [AnalyzedImage] (construction, the two dominant-colour extractors, the
    derived queries, the remapping) and the static method [colorsort].

    Python values are modelled as the code uses them: integers as [Z],
    [None]-able arguments as [option], lists as [list], attributes that are
    only sometimes set as [option] fields, exceptions as the [Raise] branch
    of [result], calls to [logging.warning] and [print] as events collected
    next to the result. *)

From stdpp Require Import base list strings pretty sorting.
From Stdlib Require Import ZArith QArith Qround Lia Sorted Ascii.
From Equations Require Import Equations.
From Equations.Prop Require Import Logic.

Open Scope Z_scope.

(** ** The Python run time the module relies on *)

Module Py.

(** The exceptions the module can raise. *)
Inductive exn : Type :=
| IndexError
| AttributeError
| ValueError
| OSError.

Inductive result (A : Type) : Type :=
| Ok (a : A)
| Raise (e : exn).
Arguments Ok {A} a.
Arguments Raise {A} e.

Definition bind {A B} (m : result A) (k : A -> result B) : result B :=
  match m with
  | Ok a => k a
  | Raise e => Raise e
  end.

(** [xs[i]] for a non-negative index. *)
Definition getitem {A} (xs : list A) (i : nat) : result A :=
  match xs !! i with
  | Some x => Ok x
  | None => Raise IndexError
  end.

(** [[f(x) for x in xs]]: the first failing call aborts the comprehension. *)
Fixpoint comprehension {A B} (f : A -> result B) (xs : list A) : result (list B) :=
  match xs with
  | [] => Ok []
  | x :: xs' =>
      bind (f x) (fun y => bind (comprehension f xs') (fun ys => Ok (y :: ys)))
  end.

(** [bool(s)] for a string argument that may be [None]. *)
Definition truthy (s : option string) : bool :=
  match s with
  | None => false
  | Some s => negb (String.eqb s "")
  end.

(** *** [list.sort] and [sorted]

    The sort is stable and compares keys with [<] only.  The keys are
    computed first, one call per element; the decorated list is sorted and
    the keys are dropped.  With [reverse=True] every comparison is
    reversed, which keeps the sort stable. *)
Section Sorting.
Context {A K : Type} (lt : K -> K -> bool) (key : A -> K).

Fixpoint insert_by (x : A) (l : list A) : list A :=
  match l with
  | [] => [x]
  | y :: l' =>
      if lt (key y) (key x) then y :: insert_by x l' else x :: y :: l'
  end.

Definition sort_by (l : list A) : list A := foldr insert_by [] l.

(** [a] may stand before [b] in a sorted list: [key b < key a] is false. *)
Definition in_order (a b : A) : Prop := lt (key b) (key a) = false.
End Sorting.

Definition compare_with {K} (lt : K -> K -> bool) (reverse : bool) : K -> K -> bool :=
  fun a b => if reverse then lt b a else lt a b.

Definition sorted {A K} (lt : K -> K -> bool) (key : A -> result K) (reverse : bool)
    (l : list A) : result (list A) :=
  bind (comprehension key l) (fun keys =>
    Ok (map snd (sort_by (compare_with lt reverse) fst (zip keys l)))).

(** [<] on integers and on pairs of integers (tuples compare
    lexicographically). *)
Definition int_lt : Z -> Z -> bool := Z.ltb.

Definition tuple_lt (a b : Z * Z) : bool :=
  Z.ltb (fst a) (fst b) || (Z.eqb (fst a) (fst b) && Z.ltb (snd a) (snd b)).

(** *** [collections.deque] *)

(** [d.popleft()]: the removed element and the remaining deque. *)
Definition popleft {A} (d : list A) : result (A * list A) :=
  match d with
  | [] => Raise IndexError
  | x :: d' => Ok (x, d')
  end.

(** *** Output

    What the module writes while it runs: warnings through [logging] and a
    line on standard output. *)
Inductive event : Type :=
| Warn_similar_colors (n_colors : option Z)
    (* "Using hue_dist with n_colors=...; dominant colors may be very similar." *)
| Warn_no_pixels (hue : Z)
    (* "No pixels found for hue value ...; n_colors may be larger than number of hues in image." *)
| Print_not_found (anchor : option string).
    (* "Starting image ... not found!" *)

(** A computation that writes events and then returns or raises. *)
Definition IO (A : Type) : Type := (list event * result A)%type.

Definition ret {A} (a : A) : IO A := ([], Ok a).
Definition lift {A} (r : result A) : IO A := ([], r).
Definition emit (e : event) : IO unit := ([e], Ok tt).
Definition throw {A} (e : exn) : IO A := ([], Raise e).

Definition io_bind {A B} (m : IO A) (k : A -> IO B) : IO B :=
  match m with
  | (out, Ok a) => let '(out', r) := k a in (out ++ out', r)
  | (out, Raise e) => (out, Raise e)
  end.

(** [try: body except IndexError: handler]. *)
Definition try_except_IndexError {A} (body : IO A) (handler : IO A) : IO A :=
  match body with
  | (out, Raise IndexError) => let '(out', r) := handler in (out ++ out', r)
  | other => other
  end.

End Py.
Export Py.

Declare Scope py_scope.
Delimit Scope py_scope with py.
Notation "'let!' x ':=' m 'in' k" := (Py.bind m (fun x => k))
  (at level 10, x pattern, m at level 100, k at level 200, only parsing) : py_scope.
Notation "'let*' x ':=' m 'in' k" := (Py.io_bind m (fun x => k))
  (at level 10, x pattern, m at level 100, k at level 200, only parsing) : py_scope.
Open Scope py_scope.

(** ** Values *)

(** [pathlib.Path]: the module reads only its [name].  The constructor also
    takes the path as a plain string, which has no [name]; the sorter reads
    [image_path.name] and is modelled for images given by a [Path]. *)
Record Path : Type := { name : string }.

(** [util.DominantColorAlgorithm]; the third tag stands for any value that is
    neither of the two the constructor knows. *)
Inductive DominantColorAlgorithm : Type :=
| HUE_DIST
| KMEANS
| OTHER_ALGORITHM.

Inductive ImageOrientation : Type :=
| VERTICAL
| HORIZONTAL.

(** An 8-bit pixel, three channels. *)
Definition pixel : Type := (Z * Z * Z)%type.

(** An HSV colour [[h, s, v]] and its items [c[0]], [c[1]], [c[2]]. *)
Definition hsv : Type := (Z * Z * Z)%type.
Definition item0 (c : hsv) : Z := c.1.1.
Definition item1 (c : hsv) : Z := c.1.2.
Definition item2 (c : hsv) : Z := c.2.

(** An RGB colour with float components (a cluster centre, a converted
    colour); every finite float is a rational. *)
Definition rgb : Type := (Q * Q * Q)%type.

(** A [PIL.Image]: [size] is [(width, height)], the pixels are in row order. *)
Record PilImage : Type := {
  pil_size : Z * Z;
  pil_pixels : list pixel
}.

(** A NumPy array of shape [(rows, cols, 3)], or [(rows, 3)] when [cols] is
    [None]. *)
Record ndarray (X : Type) : Type := {
  rows : Z;
  cols : option Z;
  data : list X
}.
Arguments rows {X} _.
Arguments cols {X} _.
Arguments data {X} _.

(** The fitted clustering model. *)
Record KMeans : Type := {
  cluster_centers_ : list rgb;
  labels_ : list nat
}.

Module Np.

(** [a.reshape((rows, cols, 3))] for non-negative dimensions: the number of
    pixels must not change. *)
Definition reshape {X} (a : list X) (r c : Z) : result (ndarray X) :=
  if (0 <=? r) && (0 <=? c) && (Z.of_nat (length a) =? r * c)
  then Ok {| rows := r; cols := Some c; data := a |}
  else Raise ValueError.

(** [a.reshape((rows, 3))]. *)
Definition reshape_rows {X} (a : list X) (r : Z) : result (ndarray X) :=
  if (0 <=? r) && (Z.of_nat (length a) =? r)
  then Ok {| rows := r; cols := None; data := a |}
  else Raise ValueError.

(** [np.median] of a non-empty list of integers: the middle value of the
    sorted list, or the mean of the two middle values. *)
Definition median (xs : list Z) : Q :=
  let s := sort_by Z.ltb id xs in
  let n := length s in
  if Nat.even n
  then Qmake (nth (n / 2 - 1) s 0 + nth (n / 2) s 0) 2
  else inject_Z (nth (n / 2) s 0).

End Np.

(** ** Collaborators *)

(** Modelled from the spec: what [analyzed_image.py] imports and does not
    define, the image library, [colorsort.util], [colorsort.analysis],
    [colorsort.heuristics] and the clustering library.  The operations are
    left open; the laws are the ones the specification states: a heuristic
    returns at least 1 (4.1), the colour utilities convert colour by colour
    (4.2, 4.3), the clustering produces exactly N colours (4.3). *)
Class Collaborators : Type := {
  (** [Image.open(path)] *)
  image_open : Path -> result PilImage;
  (** [image.resize((w, h))] for a width and a height of at least 1; the
      image library raises [ValueError] for a smaller size, and the
      constructor is modelled for the sizes it accepts *)
  pil_resize : PilImage -> Z * Z -> PilImage;
  (** [image.convert("HSV")] *)
  pil_convert_hsv : PilImage -> PilImage;
  (** [int((a / b) * c)], a float division and product, truncated, for a
      divisor [b] other than 0 *)
  int_scale : Z -> Z -> Z -> Z;
  (** [heuristics.NHeuristic] and [heuristics.get_n_heuristic]; a heuristic
      returns at least 1 *)
  NHeuristic : Type;
  get_n_heuristic : NHeuristic -> ndarray pixel -> Z;
  get_n_heuristic_positive : forall h a, 1 <= get_n_heuristic h a;
  (** [heuristics.compute_hue_dist]: the items of the returned dict, in
      insertion order *)
  compute_hue_dist : ndarray pixel -> list (Z * list pixel);
  (** [util.round_to_int] *)
  round_to_int : Q -> Z;
  (** [util.normalize_8bit_hsv], [util.hsv_to_rgb], [util.rgb_to_hsv]: one
      colour out per colour in *)
  normalize_8bit_hsv : list hsv -> list hsv;
  hsv_to_rgb : list hsv -> list rgb;
  rgb_to_hsv : list rgb -> list hsv;
  normalize_8bit_hsv_length : forall cs, length (normalize_8bit_hsv cs) = length cs;
  hsv_to_rgb_length : forall cs, length (hsv_to_rgb cs) = length cs;
  rgb_to_hsv_length : forall cs, length (rgb_to_hsv cs) = length cs;
  (** [analysis.fit_and_predict] and [analysis.build_histogram_from_clusters];
      the histogram has one entry per requested cluster *)
  fit_and_predict : ndarray pixel -> Z -> result (KMeans * list nat);
  build_histogram_from_clusters : KMeans -> list (rgb * Q);
  histogram_length : forall a n m p,
    fit_and_predict a n = Ok (m, p) ->
    Z.of_nat (length (build_histogram_from_clusters m)) = n;
  (** [model.predict(rows)] *)
  kmeans_predict : KMeans -> ndarray pixel -> list nat;
  (** [np.around(rgb)] and [np.uint8(rgb)] *)
  np_around : rgb -> rgb;
  np_uint8 : rgb -> pixel
}.

(** ** The class [AnalyzedImage] *)

Module AnalyzedImage.

(** The attributes of an instance.  [model], [predicted] and
    [cluster_histogram] are set by the k-means extractor only. *)
Record t : Type := {
  image_path : Path;
  dominant_color_algorithm : DominantColorAlgorithm;
  orientation : ImageOrientation;
  pil_image : PilImage;
  width : Z;
  height : Z;
  n_colors : Z;
  dominant_colors_rgb : list rgb;
  dominant_colors_hsv : list hsv;
  model : option KMeans;
  predicted : option (list nat);
  cluster_histogram : option (list (rgb * Q))
}.

(** Reading an attribute that was never set. *)
Definition getattr {A} (a : option A) : result A :=
  match a with
  | Some x => Ok x
  | None => Raise AttributeError
  end.

(** [get_as_array(hsv)], from the stored image. *)
Definition array_of (im : PilImage) : ndarray pixel :=
  {| rows := (pil_size im).2; cols := Some (pil_size im).1; data := pil_pixels im |}.

Definition get_as_array `{Collaborators} (im : PilImage) (as_hsv : bool) : ndarray pixel :=
  if as_hsv then array_of (pil_convert_hsv im) else array_of im.

(** [get_dominant_colors(hsv=True)] and [get_dominant_colors()]. *)
Definition get_dominant_colors_hsv (self : t) : list hsv := dominant_colors_hsv self.
Definition get_dominant_colors_rgb (self : t) : list rgb := dominant_colors_rgb self.

(** [get_dominant_color(hsv=True)] and [get_dominant_color()]. *)
Definition get_dominant_color_hsv (self : t) : result hsv :=
  getitem (get_dominant_colors_hsv self) 0.
Definition get_dominant_color_rgb (self : t) : result rgb :=
  getitem (get_dominant_colors_rgb self) 0.

Definition get_orientation (self : t) : ImageOrientation := orientation self.

Definition is_bw (self : t) : result bool :=
  let! c := get_dominant_color_hsv self in
  Ok (item1 c =? 0).

(** [generate_filename(index, base)]; [str(i)] and the [{i}] of an f-string
    write an integer in decimal, as [pretty] does. *)
Definition generate_filename (self : t) (index : option Z) (base : string)
    : result string :=
  let filename :=
    match index with
    | Some i => pretty i +:+ "_"
    | None => ""
    end in
  let! dom_color_hsv := get_dominant_color_hsv self in
  let dom_hue := item0 dom_color_hsv in
  let dom_sat := item1 dom_color_hsv in
  let dom_val := item2 dom_color_hsv in
  Ok (filename +:+ (base +:+ "_hue=" +:+ pretty dom_hue +:+ "_sat=" +:+ pretty dom_sat
                    +:+ "_val=" +:+ pretty dom_val +:+ "_n=" +:+ pretty (n_colors self)
                    +:+ ".jpg")).

Definition get_sort_metric (self : t) : result Z :=
  let! c := get_dominant_color_hsv self in
  let dom_hue := item0 c in
  let dom_hue := (dom_hue + 90) mod 360 in
  Ok dom_hue.

(** *** The hue-distribution extractor *)

(** One round of [for i in range(n_colors)]: the colour built from the
    bucket [hue_dist[i]]. *)
Definition hue_dist_color `{Collaborators} (hue_dist : list (Z * list pixel)) (i : nat)
    : IO hsv :=
  let* current_hue_list := lift (getitem hue_dist i) in
  let hue := current_hue_list.1 in
  let* avg := (if (0 <? length current_hue_list.2)%nat
               then
                 let avg_sat := round_to_int (Np.median (map item1 current_hue_list.2)) in
                 let avg_val := round_to_int (Np.median (map item2 current_hue_list.2)) in
                 ret (avg_sat, avg_val)
               else
                 let* _ := emit (Warn_no_pixels hue) in
                 ret (0, 0)) in
  ret (hue, avg.1, avg.2).

Fixpoint hue_dist_loop `{Collaborators} (hue_dist : list (Z * list pixel))
    (range : list nat) (dominant_colors_hsv : list hsv) : IO (list hsv) :=
  match range with
  | [] => ret dominant_colors_hsv
  | i :: range' =>
      let* c := hue_dist_color hue_dist i in
      hue_dist_loop hue_dist range' (dominant_colors_hsv ++ [c])
  end.

(** The buckets ranked by population, largest first. *)
Definition ranked_hue_dist (hue_dist : list (Z * list pixel))
    : result (list (Z * list pixel)) :=
  sorted Nat.ltb (fun item => Ok (length item.2)) true hue_dist.

Definition get_dominant_colors_hue_dist `{Collaborators} (im : PilImage) (n_colors : Z)
    : IO (list rgb * list hsv) :=
  let hue_dist := compute_hue_dist (get_as_array im true) in
  let* hue_dist := lift (ranked_hue_dist hue_dist) in
  let* dominant_colors_hsv := hue_dist_loop hue_dist (seq 0 (Z.to_nat n_colors)) [] in
  let dominant_colors_hsv := normalize_8bit_hsv dominant_colors_hsv in
  let dominant_colors_rgb := hsv_to_rgb dominant_colors_hsv in
  ret (dominant_colors_rgb, dominant_colors_hsv).

(** *** The k-means extractor

    Returns the three attributes it sets next to the two colour lists. *)
Definition get_dominant_colors_kmeans `{Collaborators} (im : PilImage) (n_colors : Z)
    : result (KMeans * list nat * list (rgb * Q) * (list rgb * list hsv)) :=
  let! fitted := fit_and_predict (get_as_array im false) n_colors in
  let cluster_histogram := build_histogram_from_clusters fitted.1 in
  let dominant_colors_rgb := map fst cluster_histogram in
  let dominant_colors_hsv := rgb_to_hsv dominant_colors_rgb in
  let dominant_colors_rgb := map np_around dominant_colors_rgb in
  Ok (fitted.1, fitted.2, cluster_histogram, (dominant_colors_rgb, dominant_colors_hsv)).

(** *** [__init__] *)

Definition init `{Collaborators} (image_path : Path) (resize_long_axis : option Z)
    (dominant_color_algorithm : DominantColorAlgorithm) (n_colors : option Z)
    (auto_n_heuristic : NHeuristic) : IO t :=
  let* opened := lift (image_open image_path) in
  let original_width := (pil_size opened).1 in
  let original_height := (pil_size opened).2 in
  let oriented :=
    if original_width <? original_height
    then
      let resized_height := default original_height resize_long_axis in
      let resized_width := int_scale original_width original_height resized_height in
      (VERTICAL, (resized_width, resized_height))
    else
      let resized_width := default original_width resize_long_axis in
      let resized_height := int_scale original_height original_width resized_width in
      (HORIZONTAL, (resized_width, resized_height)) in
  let resized := pil_resize opened oriented.2 in
  let self_n_colors :=
    match n_colors with
    | None => get_n_heuristic auto_n_heuristic (get_as_array resized true)
    | Some n =>
        if n =? 0
        then get_n_heuristic auto_n_heuristic (get_as_array resized true)
        else n
    end in
  match dominant_color_algorithm with
  | HUE_DIST =>
      let* _ := (if 1 <? self_n_colors
                 then emit (Warn_similar_colors n_colors)
                 else ret tt) in
      let* colors := get_dominant_colors_hue_dist resized self_n_colors in
      ret {| image_path := image_path;
             dominant_color_algorithm := dominant_color_algorithm;
             orientation := oriented.1;
             pil_image := resized;
             width := (pil_size resized).1;
             height := (pil_size resized).2;
             n_colors := self_n_colors;
             dominant_colors_rgb := colors.1;
             dominant_colors_hsv := colors.2;
             model := None;
             predicted := None;
             cluster_histogram := None |}
  | KMEANS =>
      let* fitted := lift (get_dominant_colors_kmeans resized self_n_colors) in
      ret {| image_path := image_path;
             dominant_color_algorithm := dominant_color_algorithm;
             orientation := oriented.1;
             pil_image := resized;
             width := (pil_size resized).1;
             height := (pil_size resized).2;
             n_colors := self_n_colors;
             dominant_colors_rgb := fitted.2.1;
             dominant_colors_hsv := fitted.2.2;
             model := Some fitted.1.1.1;
             predicted := Some fitted.1.1.2;
             cluster_histogram := Some fitted.1.2 |}
  | OTHER_ALGORITHM => throw ValueError
  end.

(** *** [get_remapped_image] *)

Definition get_remapped_image `{Collaborators} (self : t) (other : option t)
    : result PilImage :=
  let! fitted := getattr (model self) in
  let target_colors := cluster_centers_ fitted in
  let! other_predicted :=
    match other with
    | None => getattr (predicted self)
    | Some other =>
        let! other_rgb_data :=
          Np.reshape_rows (data (get_as_array (pil_image other) false))
                          (height other * width other) in
        Ok (kmeans_predict fitted other_rgb_data)
    end in
  let! remapped_image := comprehension (getitem target_colors) other_predicted in
  let! reshaped := Np.reshape remapped_image (height self) (width self) in
  Ok {| pil_size := (width self, height self);
        pil_pixels := map np_uint8 (data reshaped) |}.

(** *** [colorsort] *)

(** [for img in image_reps]: append to [bw] or to [color]. *)
Fixpoint partition_loop (image_reps : list t) (color bw : list t)
    : result (list t * list t) :=
  match image_reps with
  | [] => Ok (color, bw)
  | img :: image_reps' =>
      let! b := is_bw img in
      if b
      then partition_loop image_reps' color (bw ++ [img])
      else partition_loop image_reps' (color ++ [img]) bw
  end.

(** The two sort keys. *)
Definition color_key (elem : t) : result (Z * Z) :=
  let! metric := get_sort_metric elem in
  let! c := get_dominant_color_hsv elem in
  Ok (metric, item2 c).

Definition bw_key (elem : t) : result Z :=
  let! c := get_dominant_color_hsv elem in
  Ok (item2 c).

(** [path.name == anchor_image] *)
Definition name_eq (p : Path) (anchor_image : option string) : bool :=
  match anchor_image with
  | Some a => String.eqb (name p) a
  | None => false
  end.

(** [while not color[starting_index].image_path.name == anchor_image:
    starting_index += 1]; the loop ends with a match or with the
    [IndexError] of [color[starting_index]]. *)
Equations? anchor_loop (color : list t) (anchor_image : option string)
    (starting_index : nat) : result nat
    by wf (length color - starting_index)%nat lt :=
  anchor_loop color anchor_image starting_index
    with inspect (color !! starting_index) := {
    | exist _ None _ := Raise IndexError
    | exist _ (Some img) Hget :=
        if name_eq (image_path img) anchor_image
        then Ok starting_index
        else anchor_loop color anchor_image (S starting_index) }.
Proof. apply lookup_lt_Some in Hget. lia. Qed.

(** [for _ in range(starting_index): color.append(color.popleft())] *)
Fixpoint rotate_loop (n : nat) (color : list t) : result (list t) :=
  match n with
  | O => Ok color
  | S n' =>
      let! popped := popleft color in
      rotate_loop n' (popped.2 ++ [popped.1])
  end.

Definition colorsort (image_reps : list t) (anchor_image : option string)
    : IO (list t * list t * list t) :=
  let* groups := lift (partition_loop image_reps [] []) in
  let* color := lift (sorted tuple_lt color_key false groups.1) in
  let* bw := lift (sorted int_lt bw_key false groups.2) in
  let starting_index := 0%nat in
  let* starting_index :=
    (if truthy anchor_image
     then try_except_IndexError
            (lift (anchor_loop color anchor_image starting_index))
            (let* _ := emit (Print_not_found anchor_image) in ret 0%nat)
     else ret starting_index) in
  let* color := lift (rotate_loop starting_index color) in
  let combined := [] ++ color ++ bw in
  ret (combined, color, bw).

End AnalyzedImage.

(** ** Vocabulary of the specification

    The words the properties below are stated in.  They are read off the
    stored result of an image and are total; the methods above agree with
    them as soon as the image has a dominant colour. *)

Module Spec.
Import AnalyzedImage.

(** An image has at least one dominant colour. *)
Definition has_dominant_color (img : AnalyzedImage.t) : Prop :=
  dominant_colors_hsv img <> [].

(** The most dominant HSV colour. *)
Definition dominant_hsv (img : AnalyzedImage.t) : hsv :=
  default (0, 0, 0) (head (dominant_colors_hsv img)).

(** The is-monochrome test: the saturation of the most dominant colour is 0. *)
Definition Monochrome (img : AnalyzedImage.t) : Prop :=
  item1 (dominant_hsv img) = 0.

Definition Colored (img : AnalyzedImage.t) : Prop := ~ Monochrome img.

Definition sort_metric (img : AnalyzedImage.t) : Z :=
  (item0 (dominant_hsv img) + 90) mod 360.

(** The key of the colour group and the key of the monochrome group. *)
Definition hue_value_key (img : AnalyzedImage.t) : Z * Z :=
  (sort_metric img, item2 (dominant_hsv img)).

Definition value_key (img : AnalyzedImage.t) : Z :=
  item2 (dominant_hsv img).

(** The order of pairs: first component, then second. *)
Definition pair_le (a b : Z * Z) : Prop :=
  a.1 < b.1 \/ (a.1 = b.1 /\ a.2 <= b.2).

(** [output] is [input] sorted by [key], ascending for [le], and stable:
    the same elements, in order, and elements with the same key in the order
    they had in [input]. *)
Definition stable_sort_of {A K} `{EqDecision K} (le : K -> K -> Prop) (key : A -> K)
    (input output : list A) : Prop :=
  output ≡ₚ input /\
  Sorted (fun a b => le (key a) (key b)) output /\
  forall k, filter (fun a => key a = k) output = filter (fun a => key a = k) input.

(** The two groups of a collection, each in its sorted order. *)
Definition sorted_color (image_reps : list AnalyzedImage.t) : list AnalyzedImage.t :=
  sort_by tuple_lt hue_value_key (filter Colored image_reps).

Definition sorted_bw (image_reps : list AnalyzedImage.t) : list AnalyzedImage.t :=
  sort_by int_lt value_key (filter Monochrome image_reps).

(** The image is called [anchor]. *)
Definition Named (anchor : string) (img : AnalyzedImage.t) : Prop :=
  name (image_path img) = anchor.

(** [img] at index [k] is the first image of [l] called [anchor]. *)
Definition first_named (anchor : string) (l : list AnalyzedImage.t) (k : nat)
    (img : AnalyzedImage.t) : Prop :=
  l !! k = Some img /\ Named anchor img /\
  forall j img', (j < k)%nat -> l !! j = Some img' -> ~ Named anchor img'.

(** The behaviour of the sorter when the image called [a] is monochrome, as
    a reader of the code may put it: the anchor counts as not found, the
    colour sequence is the sorted one, and the anchor image is in the
    monochrome part of the output and not first in the output. *)
Definition monochrome_anchor_never_first (image_reps : list AnalyzedImage.t) (a : string)
    : Prop :=
  forall img,
    img ∈ image_reps -> Named a img -> Monochrome img ->
    exists combined bw,
      colorsort image_reps (Some a)
      = ([Print_not_found (Some a)], Ok (combined, sorted_color image_reps, bw)) /\
      img ∈ bw /\
      head combined <> Some img.

(** A string without the character [_]. *)
Fixpoint underscore_free (s : string) : Prop :=
  match s with
  | EmptyString => True
  | String c s' => c <> "_"%char /\ underscore_free s'
  end.

(** The population of a hue bucket, the colour the hue-distribution
    extractor emits for it and the warning it logs for it. *)
Definition population (bucket : Z * list pixel) : nat := length bucket.2.

Definition bucket_color `{Collaborators} (bucket : Z * list pixel) : hsv :=
  if (0 <? population bucket)%nat
  then (bucket.1,
        round_to_int (Np.median (map item1 bucket.2)),
        round_to_int (Np.median (map item2 bucket.2)))
  else (bucket.1, 0, 0).

Definition bucket_warning (bucket : Z * list pixel) : list event :=
  if (0 <? population bucket)%nat then [] else [Warn_no_pixels bucket.1].

(** The colour count the constructor settles on. *)
Definition chosen_n_colors `{Collaborators} (resized : PilImage) (n_colors : option Z)
    (auto_n_heuristic : NHeuristic) : Z :=
  match n_colors with
  | None => get_n_heuristic auto_n_heuristic (get_as_array resized true)
  | Some n =>
      if n =? 0
      then get_n_heuristic auto_n_heuristic (get_as_array resized true)
      else n
  end.

(** The size the constructor resizes an opened image to, the resized image
    and the orientation it records. *)
Definition resized_size `{Collaborators} (opened : PilImage) (resize_long_axis : option Z)
    : Z * Z :=
  let w := (pil_size opened).1 in
  let h := (pil_size opened).2 in
  if w <? h
  then (int_scale w h (default h resize_long_axis), default h resize_long_axis)
  else (default w resize_long_axis, int_scale h w (default w resize_long_axis)).

Definition resized_image `{Collaborators} (opened : PilImage) (resize_long_axis : option Z)
    : PilImage :=
  pil_resize opened (resized_size opened resize_long_axis).

Definition orientation_of (opened : PilImage) : ImageOrientation :=
  if (pil_size opened).1 <? (pil_size opened).2 then VERTICAL else HORIZONTAL.

(** The buckets, most populous first. *)
Definition ranked (hue_dist : list (Z * list pixel)) : list (Z * list pixel) :=
  sort_by (compare_with Nat.ltb true) population hue_dist.

End Spec.

(** ** Sample images

    Analysed images as the hue-distribution extractor leaves them: one
    pixel, one dominant colour, given here in HSV (the RGB form plays no part
    in the sort). *)

Module Samples.

Definition swatch (file : string) (h s v : Z) : AnalyzedImage.t :=
  {| AnalyzedImage.image_path := {| name := file |};
     AnalyzedImage.dominant_color_algorithm := HUE_DIST;
     AnalyzedImage.orientation := HORIZONTAL;
     AnalyzedImage.pil_image := {| pil_size := (1, 1); pil_pixels := [(0, 0, 0)] |};
     AnalyzedImage.width := 1;
     AnalyzedImage.height := 1;
     AnalyzedImage.n_colors := 1;
     AnalyzedImage.dominant_colors_rgb := [(0, 0, 0)%Q];
     AnalyzedImage.dominant_colors_hsv := [(h, s, v)];
     AnalyzedImage.model := None;
     AnalyzedImage.predicted := None;
     AnalyzedImage.cluster_histogram := None |}.

(** Three colour images and two grey ones. *)
Definition img_a : AnalyzedImage.t := swatch "a" 10 80 90.
Definition img_b : AnalyzedImage.t := swatch "b" 200 70 60.
Definition img_c : AnalyzedImage.t := swatch "c" 300 50 40.
Definition grey_g : AnalyzedImage.t := swatch "g" 0 0 70.
Definition grey_h : AnalyzedImage.t := swatch "h" 0 0 20.

(** An image left without a dominant colour (a colour count below 1). *)
Definition blank : AnalyzedImage.t :=
  {| AnalyzedImage.image_path := {| name := "blank" |};
     AnalyzedImage.dominant_color_algorithm := HUE_DIST;
     AnalyzedImage.orientation := HORIZONTAL;
     AnalyzedImage.pil_image := {| pil_size := (1, 1); pil_pixels := [(0, 0, 0)] |};
     AnalyzedImage.width := 1;
     AnalyzedImage.height := 1;
     AnalyzedImage.n_colors := -1;
     AnalyzedImage.dominant_colors_rgb := [];
     AnalyzedImage.dominant_colors_hsv := [];
     AnalyzedImage.model := None;
     AnalyzedImage.predicted := None;
     AnalyzedImage.cluster_histogram := None |}.

Definition three_colors : list AnalyzedImage.t := [img_a; img_b; img_c].
Definition mixed : list AnalyzedImage.t := [img_a; grey_g; img_b; grey_h; img_c].

End Samples.

(** ** A stand-in for the collaborators

    Small executable collaborators with the laws of [Collaborators], to run
    the constructor and the extractors on sample pixel data.  Pixels are
    taken as they are between the colour spaces; the clustering takes the
    first [n] distinct pixels as centres and assigns every pixel to the
    nearest centre. *)

Module StandIn.

(** A one-pixel image of hue 200, saturation 100 and value 150. *)
Definition teal : PilImage := {| pil_size := (1, 1); pil_pixels := [(200, 100, 150)] |}.

(** Two pixels of hue 30 and one of hue 7. *)
Definition dusk : PilImage :=
  {| pil_size := (3, 1); pil_pixels := [(7, 40, 50); (30, 10, 90); (30, 20, 70)] |}.

(** Two by two pixels, and four by one. *)
Definition square : PilImage :=
  {| pil_size := (2, 2);
     pil_pixels := [(255, 0, 0); (255, 0, 0); (0, 0, 255); (255, 0, 0)] |}.

Definition strip : PilImage :=
  {| pil_size := (4, 1);
     pil_pixels := [(250, 0, 0); (0, 0, 250); (0, 0, 250); (250, 0, 0)] |}.

(** The images on disk. *)
Definition files (p : Path) : result PilImage :=
  if String.eqb (name p) "teal.jpg" then Ok teal
  else if String.eqb (name p) "square.jpg" then Ok square
  else if String.eqb (name p) "strip.jpg" then Ok strip
  else Raise OSError.

(** The three images as the constructor leaves them: [teal.jpg] analysed by
    the hue distribution with one colour, the other two by k-means with two
    colours. *)
Definition teal_analyzed : AnalyzedImage.t :=
  {| AnalyzedImage.image_path := {| name := "teal.jpg" |};
     AnalyzedImage.dominant_color_algorithm := HUE_DIST;
     AnalyzedImage.orientation := HORIZONTAL;
     AnalyzedImage.pil_image := teal;
     AnalyzedImage.width := 1;
     AnalyzedImage.height := 1;
     AnalyzedImage.n_colors := 1;
     AnalyzedImage.dominant_colors_rgb := [(200, 100, 150)%Q];
     AnalyzedImage.dominant_colors_hsv := [(200, 100, 150)];
     AnalyzedImage.model := None;
     AnalyzedImage.predicted := None;
     AnalyzedImage.cluster_histogram := None |}.

Definition square_analyzed : AnalyzedImage.t :=
  {| AnalyzedImage.image_path := {| name := "square.jpg" |};
     AnalyzedImage.dominant_color_algorithm := KMEANS;
     AnalyzedImage.orientation := HORIZONTAL;
     AnalyzedImage.pil_image := square;
     AnalyzedImage.width := 2;
     AnalyzedImage.height := 2;
     AnalyzedImage.n_colors := 2;
     AnalyzedImage.dominant_colors_rgb := [(255, 0, 0)%Q; (0, 0, 255)%Q];
     AnalyzedImage.dominant_colors_hsv := [(255, 0, 0); (0, 0, 255)];
     AnalyzedImage.model :=
       Some {| cluster_centers_ := [(0, 0, 255)%Q; (255, 0, 0)%Q];
               labels_ := [1; 1; 0; 1]%nat |};
     AnalyzedImage.predicted := Some [1; 1; 0; 1]%nat;
     AnalyzedImage.cluster_histogram :=
       Some [((255, 0, 0)%Q, (3 # 4)%Q); ((0, 0, 255)%Q, (1 # 4)%Q)] |}.

Definition strip_analyzed : AnalyzedImage.t :=
  {| AnalyzedImage.image_path := {| name := "strip.jpg" |};
     AnalyzedImage.dominant_color_algorithm := KMEANS;
     AnalyzedImage.orientation := HORIZONTAL;
     AnalyzedImage.pil_image := strip;
     AnalyzedImage.width := 4;
     AnalyzedImage.height := 1;
     AnalyzedImage.n_colors := 2;
     AnalyzedImage.dominant_colors_rgb := [(0, 0, 250)%Q; (250, 0, 0)%Q];
     AnalyzedImage.dominant_colors_hsv := [(0, 0, 250); (250, 0, 0)];
     AnalyzedImage.model :=
       Some {| cluster_centers_ := [(0, 0, 250)%Q; (250, 0, 0)%Q];
               labels_ := [1; 0; 0; 1]%nat |};
     AnalyzedImage.predicted := Some [1; 0; 0; 1]%nat;
     AnalyzedImage.cluster_histogram :=
       Some [((0, 0, 250)%Q, (2 # 4)%Q); ((250, 0, 0)%Q, (2 # 4)%Q)] |}.

Definition resize (im : PilImage) (size : Z * Z) : PilImage :=
  if (size.1 =? (pil_size im).1) && (size.2 =? (pil_size im).2)
  then im
  else {| pil_size := size; pil_pixels := replicate (Z.to_nat (size.1 * size.2)) (0, 0, 0) |}.

Definition scale (a b c : Z) : Z := (a * c) / b.

(** Modelled from the spec: [heuristics.compute_hue_dist], which buckets
    every pixel by its hue channel value; the buckets are in the order in
    which their hues first occur. *)
Fixpoint bucket_insert (p : pixel) (buckets : list (Z * list pixel)) : list (Z * list pixel) :=
  match buckets with
  | [] => [(item0 p, [p])]
  | bucket :: buckets' =>
      if bucket.1 =? item0 p
      then (bucket.1, bucket.2 ++ [p]) :: buckets'
      else bucket :: bucket_insert p buckets'
  end.

Definition hue_buckets (a : ndarray pixel) : list (Z * list pixel) :=
  foldl (fun buckets p => bucket_insert p buckets) [] (data a).

(** Modelled from the spec: [util.round_to_int], rounding to the nearest
    integer (halves go up). *)
Definition nearest_int (q : Q) : Z := Qfloor (q + (1 # 2)).

Definition to_rgb (c : hsv) : rgb := (inject_Z c.1.1, inject_Z c.1.2, inject_Z c.2).
Definition to_hsv (c : rgb) : hsv := (nearest_int c.1.1, nearest_int c.1.2, nearest_int c.2).

Definition around (c : rgb) : rgb :=
  (inject_Z (nearest_int c.1.1), inject_Z (nearest_int c.1.2), inject_Z (nearest_int c.2)).

Definition uint8 (c : rgb) : pixel :=
  (Qfloor c.1.1 mod 256, Qfloor c.1.2 mod 256, Qfloor c.2 mod 256).

(** The squared distance of a pixel to a centre, and the nearest centre. *)
Definition distance2 (c : rgb) (p : pixel) : Q :=
  let d (x : Q) (y : Z) := ((x - inject_Z y) * (x - inject_Z y))%Q in
  (d c.1.1 p.1.1 + d c.1.2 p.1.2 + d c.2 p.2)%Q.

Fixpoint nearest_from (centers : list rgb) (p : pixel) (i best : nat) (best_d : Q) : nat :=
  match centers with
  | [] => best
  | c :: centers' =>
      if Qle_bool best_d (distance2 c p)
      then nearest_from centers' p (S i) best best_d
      else nearest_from centers' p (S i) i (distance2 c p)
  end.

Definition nearest (centers : list rgb) (p : pixel) : nat :=
  match centers with
  | [] => 0%nat
  | c :: centers' => nearest_from centers' p 1 0 (distance2 c p)
  end.

Definition predict (m : KMeans) (a : ndarray pixel) : list nat :=
  map (nearest (cluster_centers_ m)) (data a).

Definition distinct (ps : list pixel) : list pixel := remove_dups ps.

Definition fit (a : ndarray pixel) (n : Z) : result (KMeans * list nat) :=
  let centers := map to_rgb (take (Z.to_nat n) (distinct (data a))) in
  if (1 <=? n) && (Z.of_nat (length centers) =? n)
  then
    let labels := map (nearest centers) (data a) in
    Ok ({| cluster_centers_ := centers; labels_ := labels |}, labels)
  else Raise ValueError.

(** A centre and the share of the pixels assigned to it. *)
Definition share (labels : list nat) (i : nat) : Q :=
  Qmake (Z.of_nat (length (filter (fun l => l = i) labels)))
        (Pos.of_nat (length labels)).

Definition float_lt (a b : Q) : bool := negb (Qle_bool b a).

Definition histogram (m : KMeans) : list (rgb * Q) :=
  sort_by (compare_with float_lt true) snd
    (imap (fun i c => (c, share (labels_ m) i)) (cluster_centers_ m)).

End StandIn.

(** ** Facts about the run time *)

Module PyFacts.

Lemma bind_Ok {A B} (m : result A) (k : A -> result B) a :
  m = Ok a -> Py.bind m k = k a.
Proof. intros ->. reflexivity. Qed.

Lemma getitem_Ok {A} (xs : list A) i x :
  xs !! i = Some x -> getitem xs i = Ok x.
Proof. unfold getitem. intros ->. reflexivity. Qed.

Lemma getitem_out_of_range {A} (xs : list A) i :
  (length xs <= i)%nat -> getitem xs i = Raise IndexError.
Proof.
  intros Hlen. unfold getitem. rewrite (lookup_ge_None_2 xs i Hlen). reflexivity.
Qed.

(** A comprehension whose calls all succeed is a [map]. *)
Lemma comprehension_map {A B} (f : A -> result B) (g : A -> B) xs :
  Forall (fun x => f x = Ok (g x)) xs ->
  comprehension f xs = Ok (map g xs).
Proof.
  induction 1 as [|x xs Hx _ IH]; simpl; [reflexivity|].
  rewrite Hx. simpl. rewrite IH. reflexivity.
Qed.

Lemma Sorted_weaken {A} (R R' : A -> A -> Prop) l :
  (forall a b, R a b -> R' a b) -> Sorted R l -> Sorted R' l.
Proof.
  intros Himpl. induction 1 as [|x l _ IH Hhd]; constructor; [assumption|].
  destruct Hhd; constructor. by apply Himpl.
Qed.

Section SortFacts.
Context {A K : Type} (lt : K -> K -> bool) (key : A -> K).

Lemma insert_by_Permutation x l : insert_by lt key x l ≡ₚ x :: l.
Proof.
  induction l as [|y l IH]; simpl; [reflexivity|].
  destruct (lt (key y) (key x)); [|reflexivity].
  rewrite IH. apply Permutation_swap.
Qed.

Lemma sort_by_Permutation l : sort_by lt key l ≡ₚ l.
Proof.
  induction l as [|x l IH]; simpl; [reflexivity|].
  rewrite insert_by_Permutation. by rewrite IH.
Qed.

Lemma sort_by_length l : length (sort_by lt key l) = length l.
Proof. apply Permutation_length, sort_by_Permutation. Qed.

(** The sort is stable: the elements that satisfy [P] keep their order,
    as soon as no two of them are strictly ordered by their keys. *)
Lemma insert_by_filter (P : A -> Prop) `{!forall a, Decision (P a)} x l :
  (forall a b, P a -> P b -> lt (key a) (key b) = false) ->
  filter P (insert_by lt key x l) = filter P (x :: l).
Proof.
  intros Hflat. induction l as [|y l IH]; simpl; [reflexivity|].
  destruct (lt (key y) (key x)) eqn:Hyx; [|reflexivity].
  rewrite filter_cons, IH, !filter_cons.
  destruct (decide (P y)) as [Hy|Hy], (decide (P x)) as [Hx|Hx]; try reflexivity.
  rewrite (Hflat y x Hy Hx) in Hyx. discriminate.
Qed.

Lemma sort_by_filter (P : A -> Prop) `{!forall a, Decision (P a)} l :
  (forall a b, P a -> P b -> lt (key a) (key b) = false) ->
  filter P (sort_by lt key l) = filter P l.
Proof.
  intros Hflat. induction l as [|x l IH]; simpl; [reflexivity|].
  rewrite insert_by_filter by assumption.
  rewrite !filter_cons, IH. reflexivity.
Qed.

(** The result is in order, for an asymmetric [<]. *)
Hypothesis lt_asym : forall a b, lt a b = true -> lt b a = false.

Lemma insert_by_Sorted x l :
  Sorted (in_order lt key) l -> Sorted (in_order lt key) (insert_by lt key x l).
Proof.
  induction l as [|y l IH]; simpl; intros Hs.
  - repeat constructor.
  - destruct (lt (key y) (key x)) eqn:Hyx.
    + apply Sorted_inv in Hs as [Hs Hhd]. constructor; [by apply IH|].
      destruct l as [|z l]; simpl.
      * constructor. unfold in_order. by apply lt_asym.
      * destruct (lt (key z) (key x)).
        -- constructor. by apply HdRel_inv in Hhd.
        -- constructor. unfold in_order. by apply lt_asym.
    + constructor; [assumption|]. constructor. exact Hyx.
Qed.

Lemma sort_by_Sorted l : Sorted (in_order lt key) (sort_by lt key l).
Proof.
  induction l as [|x l IH]; simpl; [constructor|]. by apply insert_by_Sorted.
Qed.
End SortFacts.

(** Sorting the decorated list and dropping the keys is sorting by the
    key. *)
Lemma sort_by_decorated {A K} (lt : K -> K -> bool) (key : A -> K) l :
  map snd (sort_by lt fst (zip (map key l) l)) = sort_by lt key l.
Proof.
  set (dec := fun a : A => (key a, a)).
  assert (Hins : forall x l', insert_by lt fst (dec x) (map dec l')
                             = map dec (insert_by lt key x l')).
  { intros x l'. induction l' as [|y l' IH]; simpl; [reflexivity|].
    destruct (lt (key y) (key x)); simpl; [by rewrite IH | reflexivity]. }
  assert (Hzip : forall l', zip (map key l') l' = map dec l').
  { induction l' as [|y l' IH]; simpl; [reflexivity | by rewrite IH]. }
  assert (Hsort : sort_by lt fst (map dec l) = map dec (sort_by lt key l)).
  { induction l as [|x l IH]; [reflexivity|].
    change (insert_by lt fst (dec x) (sort_by lt fst (map dec l))
            = map dec (insert_by lt key x (sort_by lt key l))).
    rewrite IH. apply Hins. }
  rewrite Hzip, Hsort, map_map. simpl. apply map_id.
Qed.

Lemma sorted_sort_by {A K} (lt : K -> K -> bool) (keyf : A -> result K) (key : A -> K)
    reverse l :
  Forall (fun x => keyf x = Ok (key x)) l ->
  sorted lt keyf reverse l = Ok (sort_by (compare_with lt reverse) key l).
Proof.
  intros Hkeys. unfold sorted.
  rewrite (comprehension_map keyf key l Hkeys). simpl.
  by rewrite sort_by_decorated.
Qed.

Lemma int_lt_asym a b : int_lt a b = true -> int_lt b a = false.
Proof. unfold int_lt. lia. Qed.

Lemma tuple_lt_asym a b : tuple_lt a b = true -> tuple_lt b a = false.
Proof. unfold tuple_lt. destruct a, b; simpl. lia. Qed.

Lemma tuple_lt_irrefl a : tuple_lt a a = false.
Proof. unfold tuple_lt. destruct a; simpl. lia. Qed.

Lemma nat_gt_asym a b :
  compare_with Nat.ltb true a b = true -> compare_with Nat.ltb true b a = false.
Proof. unfold compare_with. intros H. apply Nat.ltb_lt in H. apply Nat.ltb_ge. lia. Qed.

End PyFacts.

(** ** Facts about the queries and the parts of [colorsort] *)

Module SorterFacts.
Import AnalyzedImage Spec PyFacts.

Lemma get_dominant_color_hsv_Ok img :
  has_dominant_color img -> get_dominant_color_hsv img = Ok (dominant_hsv img).
Proof.
  unfold has_dominant_color, get_dominant_color_hsv, get_dominant_colors_hsv, dominant_hsv.
  destruct (dominant_colors_hsv img) as [|c cs]; [congruence | reflexivity].
Qed.

Lemma is_bw_Ok img :
  has_dominant_color img -> is_bw img = Ok (bool_decide (Monochrome img)).
Proof.
  intros Hd. unfold is_bw. rewrite (get_dominant_color_hsv_Ok img Hd). simpl.
  f_equal. unfold Monochrome.
  destruct (Z.eqb_spec (item1 (dominant_hsv img)) 0) as [E|E].
  - by rewrite bool_decide_eq_true_2.
  - by rewrite bool_decide_eq_false_2.
Qed.

Lemma get_sort_metric_Ok img :
  has_dominant_color img -> get_sort_metric img = Ok (sort_metric img).
Proof.
  intros Hd. unfold get_sort_metric. by rewrite (get_dominant_color_hsv_Ok img Hd).
Qed.

Lemma color_key_Ok img :
  has_dominant_color img -> color_key img = Ok (hue_value_key img).
Proof.
  intros Hd. unfold color_key.
  by rewrite (get_sort_metric_Ok img Hd), (get_dominant_color_hsv_Ok img Hd).
Qed.

Lemma bw_key_Ok img :
  has_dominant_color img -> bw_key img = Ok (value_key img).
Proof.
  intros Hd. unfold bw_key. by rewrite (get_dominant_color_hsv_Ok img Hd).
Qed.

(** The partition loop appends the colour images to [color] and the
    monochrome images to [bw], each group in the order of the input. *)
Lemma partition_loop_filter image_reps color bw :
  Forall has_dominant_color image_reps ->
  partition_loop image_reps color bw
  = Ok (color ++ filter Colored image_reps, bw ++ filter Monochrome image_reps).
Proof.
  intros Hwf. revert color bw.
  induction Hwf as [|img reps Hd _ IH]; intros color bw; simpl.
  - by rewrite !app_nil_r.
  - rewrite (is_bw_Ok img Hd). simpl. rewrite !filter_cons. unfold Colored.
    destruct (decide (Monochrome img)) as [Hm|Hm].
    + rewrite bool_decide_eq_true_2 by done. rewrite IH.
      destruct (decide (~ Monochrome img)); [done|]. by rewrite <- app_assoc.
    + rewrite bool_decide_eq_false_2 by done. rewrite IH.
      destruct (decide (~ Monochrome img)); [|done]. by rewrite <- app_assoc.
Qed.

(** One step of the anchor loop. *)
Lemma anchor_loop_step color anchor i :
  anchor_loop color anchor i
  = match color !! i with
    | None => Raise IndexError
    | Some img =>
        if name_eq (image_path img) anchor
        then Ok i
        else anchor_loop color anchor (S i)
    end.
Proof.
  rewrite anchor_loop_unfold_eq at 1. unfold anchor_loop_unfold.
  destruct (inspect (color !! i)) as [[img|] E]; simpl; rewrite E; reflexivity.
Qed.

(** What the anchor loop returns, started at index [i]: the first index from
    [i] on whose image carries the anchor name, or [IndexError] when there is
    none. *)
Lemma anchor_loop_spec color anchor i :
  match anchor_loop color anchor i with
  | Ok k =>
      (i <= k)%nat /\
      (exists img, color !! k = Some img /\ name_eq (image_path img) anchor = true) /\
      (forall j img, (i <= j < k)%nat -> color !! j = Some img ->
                     name_eq (image_path img) anchor = false)
  | Raise e =>
      e = IndexError /\
      (forall j img, (i <= j)%nat -> color !! j = Some img ->
                     name_eq (image_path img) anchor = false)
  end.
Proof.
  remember (length color - i)%nat as fuel eqn:Hfuel.
  revert i Hfuel. induction fuel as [fuel IH] using lt_wf_ind. intros i Hfuel.
  rewrite anchor_loop_step. destruct (color !! i) as [img|] eqn:Hget.
  - destruct (name_eq (image_path img) anchor) eqn:Hname.
    + split; [lia|]. split; [by exists img|]. intros j img' Hj. lia.
    + apply lookup_lt_Some in Hget as Hlt.
      specialize (IH (length color - S i)%nat ltac:(lia) (S i) eq_refl).
      destruct (anchor_loop color anchor (S i)) as [k|e].
      * destruct IH as (Hle & Hfound & Hbefore). split; [lia|]. split; [done|].
        intros j img' Hj Hj'. destruct (decide (j = i)) as [->|Hne].
        -- congruence.
        -- apply (Hbefore j img'); [lia | done].
      * destruct IH as (-> & Hnone). split; [done|].
        intros j img' Hj Hj'. destruct (decide (j = i)) as [->|Hne].
        -- congruence.
        -- apply (Hnone j img'); [lia | done].
  - split; [done|]. intros j img Hj Hj'.
    apply lookup_ge_None_1 in Hget. apply lookup_lt_Some in Hj'. lia.
Qed.

Lemma name_eq_Named img anchor :
  name_eq (image_path img) (Some anchor) = true <-> Named anchor img.
Proof. unfold name_eq, Named. apply String.eqb_eq. Qed.

Lemma name_eq_not_Named img anchor :
  name_eq (image_path img) (Some anchor) = false <-> ~ Named anchor img.
Proof. unfold name_eq, Named. apply String.eqb_neq. Qed.

(** The loop finds the first image called [anchor]. *)
Lemma anchor_loop_found color anchor k img :
  first_named anchor color k img ->
  anchor_loop color (Some anchor) 0 = Ok k.
Proof.
  intros (Hget & Hname & Hfirst).
  pose proof (anchor_loop_spec color (Some anchor) 0) as Hspec.
  destruct (anchor_loop color (Some anchor) 0) as [k'|e].
  - destruct Hspec as (_ & (img' & Hget' & Hname') & Hbefore).
    f_equal. destruct (Nat.lt_trichotomy k' k) as [Hlt|[->|Hgt]]; [|done|].
    + exfalso. apply (Hfirst k' img' Hlt Hget'). by apply name_eq_Named.
    + exfalso. specialize (Hbefore k img ltac:(lia) Hget).
      by apply name_eq_not_Named in Hbefore.
  - destruct Hspec as (_ & Hnone). exfalso.
    specialize (Hnone k img ltac:(lia) Hget). by apply name_eq_not_Named in Hnone.
Qed.

(** Without an image called [anchor] the loop runs off the end of [color]. *)
Lemma anchor_loop_not_found color anchor :
  Forall (fun img => ~ Named anchor img) color ->
  anchor_loop color (Some anchor) 0 = Raise IndexError.
Proof.
  intros Hnone.
  pose proof (anchor_loop_spec color (Some anchor) 0) as Hspec.
  destruct (anchor_loop color (Some anchor) 0) as [k|e].
  - destruct Hspec as (_ & (img & Hget & Hname) & _). exfalso.
    apply name_eq_Named in Hname.
    by apply (Forall_lookup_1 _ _ _ _ Hnone Hget).
  - by destruct Hspec as (-> & _).
Qed.

(** The index the loop returns is inside [color]. *)
Lemma anchor_loop_bound color anchor k :
  anchor_loop color anchor 0 = Ok k -> (k < length color)%nat.
Proof.
  intros Hk. pose proof (anchor_loop_spec color anchor 0) as Hspec.
  rewrite Hk in Hspec. destruct Hspec as (_ & (img & Hget & _) & _).
  by apply lookup_lt_Some in Hget.
Qed.

(** The deque loop rotates to the left. *)
Lemma rotate_loop_drop_take n color :
  (n <= length color)%nat ->
  rotate_loop n color = Ok (drop n color ++ take n color).
Proof.
  revert color. induction n as [|n IH]; intros color Hn; simpl.
  - by rewrite drop_0, app_nil_r.
  - destruct color as [|x color]; simpl in *; [lia|].
    rewrite IH by (rewrite length_app; simpl; lia).
    f_equal. rewrite drop_app_le, take_app_le by lia.
    by rewrite <- app_assoc.
Qed.

Lemma rotate_loop_rotate n color :
  (n < length color)%nat -> rotate_loop n color = Ok (rotate n color).
Proof.
  intros Hn. rewrite rotate_loop_drop_take by lia.
  unfold rotate. by rewrite Nat.mod_small.
Qed.

(** The two sorts of [colorsort] succeed and give the sorted groups. *)
Lemma sorted_color_Ok image_reps :
  Forall has_dominant_color image_reps ->
  sorted tuple_lt color_key false (filter Colored image_reps)
  = Ok (sorted_color image_reps).
Proof.
  intros Hwf.
  rewrite (sorted_sort_by tuple_lt color_key hue_value_key); [reflexivity|].
  apply Forall_forall. intros img [_ Himg]%list_elem_of_filter.
  apply color_key_Ok. by apply (proj1 (Forall_forall _ _) Hwf).
Qed.

Lemma sorted_bw_Ok image_reps :
  Forall has_dominant_color image_reps ->
  sorted int_lt bw_key false (filter Monochrome image_reps)
  = Ok (sorted_bw image_reps).
Proof.
  intros Hwf.
  rewrite (sorted_sort_by int_lt bw_key value_key); [reflexivity|].
  apply Forall_forall. intros img [_ Himg]%list_elem_of_filter.
  apply bw_key_Ok. by apply (proj1 (Forall_forall _ _) Hwf).
Qed.

(** [colorsort] on images that each have a dominant colour, in one
    equation. *)
Lemma colorsort_eq image_reps anchor :
  Forall has_dominant_color image_reps ->
  colorsort image_reps anchor
  = if truthy anchor
    then match anchor_loop (sorted_color image_reps) anchor 0 with
         | Ok k =>
             ([], Ok (rotate k (sorted_color image_reps) ++ sorted_bw image_reps,
                      rotate k (sorted_color image_reps),
                      sorted_bw image_reps))
         | Raise _ =>
             ([Print_not_found anchor],
              Ok (sorted_color image_reps ++ sorted_bw image_reps,
                  sorted_color image_reps,
                  sorted_bw image_reps))
         end
    else ([], Ok (sorted_color image_reps ++ sorted_bw image_reps,
                  sorted_color image_reps,
                  sorted_bw image_reps)).
Proof.
  intros Hwf. unfold colorsort.
  rewrite (partition_loop_filter image_reps [] [] Hwf). cbn [lift io_bind fst snd app].
  rewrite (sorted_color_Ok image_reps Hwf), (sorted_bw_Ok image_reps Hwf).
  cbn [io_bind fst snd app].
  destruct (truthy anchor).
  - pose proof (anchor_loop_spec (sorted_color image_reps) anchor 0) as Hspec.
    destruct (anchor_loop (sorted_color image_reps) anchor 0) as [k|e] eqn:Hloop.
    + apply anchor_loop_bound in Hloop.
      cbn [try_except_IndexError io_bind lift app].
      rewrite (rotate_loop_rotate k _ Hloop). reflexivity.
    + destruct Hspec as (-> & _). reflexivity.
  - reflexivity.
Qed.

Lemma truthy_Some a : a <> ""%string -> truthy (Some a) = true.
Proof. intros Ha. simpl. by apply negb_true_iff, String.eqb_neq. Qed.

(** A supplied anchor that names no image of the sorted colour sequence: the
    sequence stays as sorted and the not-found line is printed. *)
Lemma colorsort_anchor_absent image_reps a :
  Forall has_dominant_color image_reps ->
  a <> ""%string ->
  Forall (fun img => ~ Named a img) (sorted_color image_reps) ->
  colorsort image_reps (Some a)
  = ([Print_not_found (Some a)],
     Ok (sorted_color image_reps ++ sorted_bw image_reps,
         sorted_color image_reps,
         sorted_bw image_reps)).
Proof.
  intros Hwf Ha Hnone. rewrite (colorsort_eq image_reps (Some a) Hwf).
  rewrite (truthy_Some a Ha).
  by rewrite (anchor_loop_not_found (sorted_color image_reps) a Hnone).
Qed.

Lemma elem_of_sorted_color image_reps img :
  img ∈ sorted_color image_reps <-> Colored img /\ img ∈ image_reps.
Proof.
  unfold sorted_color. rewrite (sort_by_Permutation tuple_lt hue_value_key).
  apply list_elem_of_filter.
Qed.

Lemma elem_of_sorted_bw image_reps img :
  img ∈ sorted_bw image_reps <-> Monochrome img /\ img ∈ image_reps.
Proof.
  unfold sorted_bw. rewrite (sort_by_Permutation int_lt value_key).
  apply list_elem_of_filter.
Qed.

End SorterFacts.

(** ** The collection sorter *)

Module Sorter.
Import AnalyzedImage Spec PyFacts SorterFacts.

Lemma sorted_color_stable_sort image_reps :
  stable_sort_of pair_le hue_value_key (filter Colored image_reps) (sorted_color image_reps).
Proof.
  unfold stable_sort_of, sorted_color. split; [apply sort_by_Permutation|]. split.
  - eapply Sorted_weaken; [|apply sort_by_Sorted, tuple_lt_asym].
    intros a b. unfold in_order, tuple_lt, pair_le.
    destruct (hue_value_key a), (hue_value_key b); simpl. lia.
  - intros k. apply sort_by_filter. intros a b -> ->. apply tuple_lt_irrefl.
Qed.

Lemma sorted_bw_stable_sort image_reps :
  stable_sort_of Z.le value_key (filter Monochrome image_reps) (sorted_bw image_reps).
Proof.
  unfold stable_sort_of, sorted_bw. split; [apply sort_by_Permutation|]. split.
  - eapply Sorted_weaken; [|apply sort_by_Sorted, int_lt_asym].
    intros a b. unfold in_order, int_lt. lia.
  - intros k. apply sort_by_filter. intros a b -> ->. unfold int_lt. lia.
Qed.

Lemma rotate_Permutation {A} k (l : list A) : rotate k l ≡ₚ l.
Proof.
  unfold rotate. rewrite Permutation_app_comm. by rewrite take_drop.
Qed.

(** C5. [get_sort_metric] returns the dominant hue plus 90, modulo 360; for a
    dominant hue in [0, 360) the value lies in [0, 360). *)
Theorem sort_metric_is_rotated_hue img :
  has_dominant_color img ->
  exists m,
    get_sort_metric img = Ok m /\
    m = (item0 (dominant_hsv img) + 90) mod 360 /\
    (0 <= item0 (dominant_hsv img) < 360 -> 0 <= m < 360).
Proof.
  intros Hd. exists (sort_metric img). split; [by apply get_sort_metric_Ok|].
  split; [reflexivity|]. intros _. unfold sort_metric. apply Z.mod_pos_bound. lia.
Qed.

Lemma sort_metric_is_rotated_hue_witness :
  has_dominant_color Samples.img_c /\
  exists m,
    get_sort_metric Samples.img_c = Ok m /\
    m = (item0 (dominant_hsv Samples.img_c) + 90) mod 360 /\
    (0 <= item0 (dominant_hsv Samples.img_c) < 360 -> 0 <= m < 360).
Proof.
  split; [discriminate|]. apply (sort_metric_is_rotated_hue Samples.img_c). discriminate.
Defined.

(** C1. [colorsort] splits the collection with the is-monochrome test, sorts
    the colour group ascending and stably by (sort metric, dominant value)
    and the monochrome group ascending and stably by dominant value, and
    returns the presentation order (rotated colour sequence, then monochrome
    sequence), the rotated colour sequence and the monochrome sequence. *)
Theorem colorsort_partitions_sorts_returns image_reps anchor :
  Forall has_dominant_color image_reps ->
  exists out color bw k,
    stable_sort_of pair_le hue_value_key (filter Colored image_reps) color /\
    stable_sort_of Z.le value_key (filter Monochrome image_reps) bw /\
    colorsort image_reps anchor = (out, Ok (rotate k color ++ bw, rotate k color, bw)).
Proof.
  intros Hwf. rewrite (colorsort_eq image_reps anchor Hwf).
  pose proof (sorted_color_stable_sort image_reps) as Hc.
  pose proof (sorted_bw_stable_sort image_reps) as Hb.
  assert (H0 : rotate 0 (sorted_color image_reps) = sorted_color image_reps).
  { unfold rotate. destruct (length (sorted_color image_reps)); simpl;
      by rewrite ?Nat.sub_diag, ?drop_0, ?take_0, app_nil_r. }
  destruct (truthy anchor).
  - destruct (anchor_loop (sorted_color image_reps) anchor 0) as [k|e].
    + by exists [], (sorted_color image_reps), (sorted_bw image_reps), k.
    + exists [Print_not_found anchor], (sorted_color image_reps), (sorted_bw image_reps), 0%nat.
      by rewrite H0.
  - exists [], (sorted_color image_reps), (sorted_bw image_reps), 0%nat. by rewrite H0.
Qed.

Lemma colorsort_partitions_sorts_returns_witness :
  Forall has_dominant_color Samples.mixed /\
  exists out color bw k,
    stable_sort_of pair_le hue_value_key (filter Colored Samples.mixed) color /\
    stable_sort_of Z.le value_key (filter Monochrome Samples.mixed) bw /\
    colorsort Samples.mixed (Some "b"%string)
    = (out, Ok (rotate k color ++ bw, rotate k color, bw)).
Proof.
  assert (Hwf : Forall has_dominant_color Samples.mixed)
    by (repeat constructor; discriminate).
  split; [exact Hwf|]. exact (colorsort_partitions_sorts_returns Samples.mixed (Some "b"%string) Hwf).
Defined.

(** C2. The anchor rotation is a cyclic permutation of the sorted colour
    sequence: the returned colour sequence has the same images, each as
    often, it is a rotation of the sorted one, and when the anchor names the
    image at index [k] (the first of that name) the sequence is rotated left
    by [k], which puts that image first and the [k] images before it at the
    end. *)
Theorem anchor_rotation_is_cyclic_permutation image_reps anchor :
  Forall has_dominant_color image_reps ->
  exists out combined rotated bw,
    colorsort image_reps anchor = (out, Ok (combined, rotated, bw)) /\
    rotated ≡ₚ sorted_color image_reps /\
    (exists k, rotated = rotate k (sorted_color image_reps)) /\
    (forall a k img,
        anchor = Some a -> a <> ""%string ->
        first_named a (sorted_color image_reps) k img ->
        rotated = drop k (sorted_color image_reps) ++ take k (sorted_color image_reps) /\
        head rotated = Some img).
Proof.
  intros Hwf. rewrite (colorsort_eq image_reps anchor Hwf).
  set (color := sorted_color image_reps). set (bw := sorted_bw image_reps).
  assert (H0 : rotate 0 color = color).
  { unfold rotate. destruct (length color); simpl;
      by rewrite ?Nat.sub_diag, ?drop_0, ?take_0, app_nil_r. }
  destruct (truthy anchor) eqn:Htruthy.
  - destruct (anchor_loop color anchor 0) as [k'|e] eqn:Hloop.
    + exists [], (rotate k' color ++ bw), (rotate k' color), bw.
      split; [reflexivity|]. split; [apply rotate_Permutation|].
      split; [by exists k'|]. intros a k img -> Ha Hfirst.
      rewrite (anchor_loop_found color a k img Hfirst) in Hloop.
      injection Hloop as <-. destruct Hfirst as (Hget & _ & _).
      apply lookup_lt_Some in Hget as Hlt.
      unfold rotate. rewrite Nat.mod_small by done. split; [reflexivity|].
      rewrite head_lookup, lookup_app_l by (rewrite length_drop; lia).
      by rewrite lookup_drop, Nat.add_0_r.
    + exists [Print_not_found anchor], (color ++ bw), color, bw.
      split; [reflexivity|]. split; [reflexivity|].
      split; [by exists 0%nat|]. intros a k img -> Ha Hfirst.
      rewrite (anchor_loop_found color a k img Hfirst) in Hloop. discriminate.
  - exists [], (color ++ bw), color, bw.
    split; [reflexivity|]. split; [reflexivity|].
    split; [by exists 0%nat|]. intros a k img -> Ha _.
    rewrite (truthy_Some a Ha) in Htruthy. discriminate.
Qed.

Lemma anchor_rotation_is_cyclic_permutation_witness :
  Forall has_dominant_color Samples.mixed /\
  exists out combined rotated bw,
    colorsort Samples.mixed (Some "b"%string) = (out, Ok (combined, rotated, bw)) /\
    rotated ≡ₚ sorted_color Samples.mixed /\
    (exists k, rotated = rotate k (sorted_color Samples.mixed)) /\
    (forall a k img,
        Some "b"%string = Some a -> a <> ""%string ->
        first_named a (sorted_color Samples.mixed) k img ->
        rotated = drop k (sorted_color Samples.mixed) ++ take k (sorted_color Samples.mixed) /\
        head rotated = Some img).
Proof.
  assert (Hwf : Forall has_dominant_color Samples.mixed)
    by (repeat constructor; discriminate).
  split; [exact Hwf|].
  exact (anchor_rotation_is_cyclic_permutation Samples.mixed (Some "b"%string) Hwf).
Defined.

(** On the sample collection "b" is first named at index 2 of the sorted
    colour sequence. *)
Example first_named_b_in_mixed :
  first_named "b" (sorted_color Samples.mixed) 2 Samples.img_b.
Proof.
  split; [reflexivity|]. split; [reflexivity|].
  intros j img Hj Hget Hname. unfold Named in Hname.
  destruct j as [|[|j]]; [| |lia]; vm_compute in Hget; injection Hget as <-; discriminate.
Qed.

(** C6. An anchor that names no image of the sorted colour sequence is not
    fatal: [colorsort] returns (no exception), the not-found line is printed
    and the colour sequence is the sorted one, not rotated. *)
Theorem anchor_not_found_is_reported image_reps a :
  Forall has_dominant_color image_reps ->
  a <> ""%string ->
  Forall (fun img => ~ Named a img) (sorted_color image_reps) ->
  exists combined bw,
    colorsort image_reps (Some a)
    = ([Print_not_found (Some a)], Ok (combined, sorted_color image_reps, bw)) /\
    combined = sorted_color image_reps ++ bw /\
    sorted_color image_reps = rotate 0 (sorted_color image_reps).
Proof.
  intros Hwf Ha Hnone.
  exists (sorted_color image_reps ++ sorted_bw image_reps), (sorted_bw image_reps).
  split; [by apply colorsort_anchor_absent|]. split; [reflexivity|].
  unfold rotate. destruct (length (sorted_color image_reps)); simpl;
    by rewrite ?Nat.sub_diag, ?drop_0, ?take_0, app_nil_r.
Qed.

Lemma anchor_not_found_is_reported_witness :
  (Forall has_dominant_color Samples.three_colors /\
   "z"%string <> ""%string /\
   Forall (fun img => ~ Named "z" img) (sorted_color Samples.three_colors)) /\
  exists combined bw,
    colorsort Samples.three_colors (Some "z"%string)
    = ([Print_not_found (Some "z"%string)],
       Ok (combined, sorted_color Samples.three_colors, bw)) /\
    combined = sorted_color Samples.three_colors ++ bw /\
    sorted_color Samples.three_colors = rotate 0 (sorted_color Samples.three_colors).
Proof.
  assert (Hwf : Forall has_dominant_color Samples.three_colors)
    by (repeat constructor; discriminate).
  assert (Hz : "z"%string <> ""%string) by discriminate.
  assert (Hnone : Forall (fun img => ~ Named "z" img) (sorted_color Samples.three_colors))
    by (repeat constructor; discriminate).
  split; [by repeat split|].
  exact (anchor_not_found_is_reported Samples.three_colors "z" Hwf Hz Hnone).
Defined.

(** C10, as stated, fails on a collection without colour images: the
    monochrome anchor image is then the first image of the output. *)
Lemma monochrome_anchor_alone_is_first :
  ~ monochrome_anchor_never_first [Samples.grey_g] "g".
Proof.
  intros Hclaim.
  destruct (Hclaim Samples.grey_g) as (combined & bw & Hrun & _ & Hfirst).
  - apply list_elem_of_singleton. reflexivity.
  - reflexivity.
  - reflexivity.
  - vm_compute in Hrun. injection Hrun as <- <-. by apply Hfirst.
Qed.

(** C10, amended. When the images called by the anchor name are all
    monochrome, the anchor counts as not found: the not-found line is
    printed, the colour sequence is the sorted one, not rotated, and the
    anchor image is in the monochrome part of the output; it is not first in
    the output as soon as the collection has a colour image. *)
Theorem monochrome_anchor_is_not_found image_reps a img :
  Forall has_dominant_color image_reps ->
  a <> ""%string ->
  img ∈ image_reps -> Named a img -> Monochrome img ->
  (forall img', img' ∈ image_reps -> Named a img' -> Monochrome img') ->
  exists combined bw,
    colorsort image_reps (Some a)
    = ([Print_not_found (Some a)], Ok (combined, sorted_color image_reps, bw)) /\
    combined = sorted_color image_reps ++ bw /\
    img ∈ bw /\
    (sorted_color image_reps <> [] -> head combined <> Some img).
Proof.
  intros Hwf Ha Hin Hname Hmono Hall.
  exists (sorted_color image_reps ++ sorted_bw image_reps), (sorted_bw image_reps).
  split.
  - apply colorsort_anchor_absent; [done..|].
    apply Forall_forall. intros c [Hc Hcin]%elem_of_sorted_color Hcname.
    apply Hc. by apply Hall.
  - split; [reflexivity|]. split; [by apply elem_of_sorted_bw|].
    intros Hne Hhead. destruct (sorted_color image_reps) as [|c cs] eqn:Hcs; [done|].
    simpl in Hhead. injection Hhead as ->.
    assert (Hc : img ∈ sorted_color image_reps) by (rewrite Hcs; apply list_elem_of_here).
    apply elem_of_sorted_color in Hc as [Hc _]. by apply Hc.
Qed.

Lemma monochrome_anchor_is_not_found_witness :
  (Forall has_dominant_color Samples.mixed /\
   "g"%string <> ""%string /\
   Samples.grey_g ∈ Samples.mixed /\ Named "g" Samples.grey_g /\ Monochrome Samples.grey_g /\
   (forall img', img' ∈ Samples.mixed -> Named "g" img' -> Monochrome img')) /\
  exists combined bw,
    colorsort Samples.mixed (Some "g"%string)
    = ([Print_not_found (Some "g"%string)], Ok (combined, sorted_color Samples.mixed, bw)) /\
    combined = sorted_color Samples.mixed ++ bw /\
    Samples.grey_g ∈ bw /\
    (sorted_color Samples.mixed <> [] -> head combined <> Some Samples.grey_g).
Proof.
  assert (Hwf : Forall has_dominant_color Samples.mixed)
    by (repeat constructor; discriminate).
  assert (Hg : "g"%string <> ""%string) by discriminate.
  assert (Hin : Samples.grey_g ∈ Samples.mixed)
    by (apply list_elem_of_further, list_elem_of_here).
  assert (Hname : Named "g" Samples.grey_g) by reflexivity.
  assert (Hmono : Monochrome Samples.grey_g) by reflexivity.
  assert (Hall : forall img', img' ∈ Samples.mixed -> Named "g" img' -> Monochrome img').
  { intros img' Hin' Hname'. apply list_elem_of_In in Hin'. simpl in Hin'.
    destruct Hin' as [<-|[<-|[<-|[<-|[<-|[]]]]]];
      solve [reflexivity | discriminate Hname']. }
  split; [by repeat split|].
  exact (monochrome_anchor_is_not_found Samples.mixed "g" Samples.grey_g
           Hwf Hg Hin Hname Hmono Hall).
Defined.

(** The sorter on the sample collection, anchored at "b". *)
Example colorsort_mixed_anchor_b :
  colorsort Samples.mixed (Some "b"%string)
  = ([], Ok ([Samples.img_b; Samples.img_c; Samples.img_a; Samples.grey_h; Samples.grey_g],
             [Samples.img_b; Samples.img_c; Samples.img_a],
             [Samples.grey_h; Samples.grey_g])).
Proof. vm_compute. reflexivity. Qed.

(** The anchor-not-found scenario of the specification: "a", "b", "c" and
    the anchor "z". *)
Example colorsort_three_colors_anchor_z :
  colorsort Samples.three_colors (Some "z"%string)
  = ([Print_not_found (Some "z"%string)],
     Ok ([Samples.img_c; Samples.img_a; Samples.img_b],
         [Samples.img_c; Samples.img_a; Samples.img_b],
         [])).
Proof. vm_compute. reflexivity. Qed.

End Sorter.

(** ** The stand-in collaborators keep the laws *)

Module StandInLaws.
Import StandIn PyFacts.

Lemma fit_histogram_length a n m p :
  fit a n = Ok (m, p) -> Z.of_nat (length (histogram m)) = n.
Proof.
  unfold fit.
  destruct ((1 <=? n) && (Z.of_nat (length (map to_rgb (take (Z.to_nat n) (distinct (data a))))) =? n))
    eqn:Hcheck; [|discriminate].
  intros [= <- _]. unfold histogram. rewrite sort_by_length, length_imap. simpl.
  apply andb_true_iff in Hcheck as [_ Hlen]. by apply Z.eqb_eq in Hlen.
Qed.

#[export] Instance collaborators : Collaborators :=
  {| image_open := files;
     pil_resize := resize;
     pil_convert_hsv := fun im => im;
     int_scale := scale;
     NHeuristic := unit;
     get_n_heuristic := fun _ _ => 1;
     get_n_heuristic_positive := fun _ _ => Z.le_refl 1;
     compute_hue_dist := hue_buckets;
     round_to_int := nearest_int;
     normalize_8bit_hsv := fun cs => cs;
     hsv_to_rgb := map to_rgb;
     rgb_to_hsv := map to_hsv;
     normalize_8bit_hsv_length := fun cs => eq_refl;
     hsv_to_rgb_length := length_map to_rgb;
     rgb_to_hsv_length := length_map to_hsv;
     fit_and_predict := fit;
     build_histogram_from_clusters := histogram;
     histogram_length := fit_histogram_length;
     kmeans_predict := predict;
     np_around := around;
     np_uint8 := uint8 |}.

End StandInLaws.

(** ** The hue-distribution extractor *)

Module HueDist.
Import AnalyzedImage Spec PyFacts.

Section Extractor.
Context `{Collaborators}.

Lemma hue_dist_color_bucket hue_dist i bucket :
  hue_dist !! i = Some bucket ->
  hue_dist_color hue_dist i = (bucket_warning bucket, Ok (bucket_color bucket)).
Proof.
  intros Hget. unfold hue_dist_color, bucket_warning, bucket_color, population.
  rewrite (getitem_Ok hue_dist i bucket Hget). simpl.
  destruct (0 <? length bucket.2)%nat; reflexivity.
Qed.

Lemma hue_dist_color_out_of_range hue_dist i :
  (length hue_dist <= i)%nat ->
  hue_dist_color hue_dist i = ([], Raise IndexError).
Proof.
  intros Hlen. unfold hue_dist_color.
  by rewrite (getitem_out_of_range hue_dist i Hlen).
Qed.

(** The loop over [range(n)], started at index [s], inside the list. *)
Lemma hue_dist_loop_inside hue_dist n : forall s acc,
  (s + n <= length hue_dist)%nat ->
  hue_dist_loop hue_dist (seq s n) acc
  = (flat_map bucket_warning (take n (drop s hue_dist)),
     Ok (acc ++ map bucket_color (take n (drop s hue_dist)))).
Proof.
  induction n as [|n IH]; intros s acc Hlen; simpl.
  - by rewrite app_nil_r.
  - destruct (lookup_lt_is_Some_2 hue_dist s ltac:(lia)) as [bucket Hget].
    rewrite (hue_dist_color_bucket hue_dist s bucket Hget).
    rewrite (drop_S hue_dist bucket s Hget). cbn [take flat_map map io_bind].
    rewrite (IH (S s) (acc ++ [bucket_color bucket]) ltac:(lia)).
    by rewrite <- app_assoc.
Qed.

(** The loop runs past the end of the list: the index error of
    [hue_dist[i]], after the warnings of the buckets that were there. *)
Lemma hue_dist_loop_overflow hue_dist n : forall s acc,
  (s <= length hue_dist < s + n)%nat ->
  hue_dist_loop hue_dist (seq s n) acc
  = (flat_map bucket_warning (drop s hue_dist), Raise IndexError).
Proof.
  induction n as [|n IH]; intros s acc Hlen; [lia|]. simpl.
  destruct (decide (s = length hue_dist)) as [->|Hne].
  - rewrite hue_dist_color_out_of_range by lia. by rewrite drop_all.
  - destruct (lookup_lt_is_Some_2 hue_dist s ltac:(lia)) as [bucket Hget].
    rewrite (hue_dist_color_bucket hue_dist s bucket Hget).
    rewrite (drop_S hue_dist bucket s Hget). cbn [flat_map io_bind].
    by rewrite (IH (S s) (acc ++ [bucket_color bucket]) ltac:(lia)).
Qed.

Lemma ranked_hue_dist_Ok hue_dist : ranked_hue_dist hue_dist = Ok (ranked hue_dist).
Proof.
  unfold ranked_hue_dist.
  rewrite (sorted_sort_by Nat.ltb _ population); [reflexivity|].
  apply Forall_forall. reflexivity.
Qed.

(** The ranking is the stable sort by population, largest first. *)
Lemma ranked_stable_sort hue_dist :
  stable_sort_of (fun a b => (b <= a)%nat) population hue_dist (ranked hue_dist).
Proof.
  unfold stable_sort_of, ranked. split; [apply sort_by_Permutation|]. split.
  - eapply Sorted_weaken; [|apply sort_by_Sorted, nat_gt_asym].
    intros a b. unfold in_order, compare_with. intros Hab%Nat.ltb_ge. exact Hab.
  - intros k. apply sort_by_filter. intros a b -> ->.
    unfold compare_with. apply Nat.ltb_irrefl.
Qed.

(** The extractor when [n_colors] buckets are there. *)
Lemma get_dominant_colors_hue_dist_inside im n :
  let ranking := ranked (compute_hue_dist (get_as_array im true)) in
  let emitted := map bucket_color (take (Z.to_nat n) ranking) in
  (Z.to_nat n <= length ranking)%nat ->
  get_dominant_colors_hue_dist im n
  = (flat_map bucket_warning (take (Z.to_nat n) ranking),
     Ok (hsv_to_rgb (normalize_8bit_hsv emitted), normalize_8bit_hsv emitted)).
Proof.
  intros ranking emitted Hlen. unfold get_dominant_colors_hue_dist.
  rewrite ranked_hue_dist_Ok. cbn [lift io_bind app].
  fold ranking. rewrite (hue_dist_loop_inside ranking (Z.to_nat n) 0 [] Hlen).
  rewrite drop_0. cbn [io_bind ret app]. fold emitted.
  by rewrite app_nil_r.
Qed.

(** The extractor when fewer than [n_colors] buckets are there. *)
Lemma get_dominant_colors_hue_dist_overflow im n :
  let ranking := ranked (compute_hue_dist (get_as_array im true)) in
  (length ranking < Z.to_nat n)%nat ->
  get_dominant_colors_hue_dist im n
  = (flat_map bucket_warning ranking, Raise IndexError).
Proof.
  intros ranking Hlen. unfold get_dominant_colors_hue_dist.
  rewrite ranked_hue_dist_Ok. cbn [lift io_bind app].
  fold ranking.
  rewrite (hue_dist_loop_overflow ranking (Z.to_nat n) 0 [] ltac:(lia)).
  by rewrite drop_0.
Qed.

Lemma ranked_length hue_dist : length (ranked hue_dist) = length hue_dist.
Proof. apply sort_by_length. Qed.

(** C4. With [n_colors] not above the number of hue buckets, the extractor
    ranks the buckets by population, largest first and stably, takes the
    first [n_colors] of them and emits for each, in rank order, the hue of
    the bucket with the rounded medians of the saturations and of the values
    of its pixels, or with 0 and 0 and a warning for a bucket without
    pixels; the emitted colours are normalised and converted to RGB. *)
Theorem hue_dist_ranks_and_emits_medians im n :
  n <= Z.of_nat (length (compute_hue_dist (get_as_array im true))) ->
  exists ranking,
    stable_sort_of (fun a b => (b <= a)%nat) population
      (compute_hue_dist (get_as_array im true)) ranking /\
    let top := take (Z.to_nat n) ranking in
    let emitted := map bucket_color top in
    get_dominant_colors_hue_dist im n
    = (flat_map bucket_warning top,
       Ok (hsv_to_rgb (normalize_8bit_hsv emitted), normalize_8bit_hsv emitted)).
Proof.
  intros Hn. exists (ranked (compute_hue_dist (get_as_array im true))).
  split; [apply ranked_stable_sort|].
  apply get_dominant_colors_hue_dist_inside. rewrite ranked_length. lia.
Qed.

(** C3. With [n_colors] above the number of hue buckets the extractor does
    not clamp and does not report the condition: it ends with the
    [IndexError] of [hue_dist[i]]. *)
Theorem hue_dist_overflow_raises_IndexError im n :
  Z.of_nat (length (compute_hue_dist (get_as_array im true))) < n ->
  exists out, get_dominant_colors_hue_dist im n = (out, Raise IndexError).
Proof.
  intros Hn. eexists. apply get_dominant_colors_hue_dist_overflow.
  rewrite ranked_length. lia.
Qed.

End Extractor.

Section Examples.
Import StandInLaws.

(** The single-hue scenario of the specification: the medians are the
    values of the one pixel. *)
Example hue_dist_single_hue :
  get_dominant_colors_hue_dist StandIn.teal 1
  = ([], Ok ([(inject_Z 200, inject_Z 100, inject_Z 150)], [(200, 100, 150)])).
Proof. vm_compute. reflexivity. Qed.

Example hue_dist_most_populous_first :
  (get_dominant_colors_hue_dist StandIn.dusk 2).2
  = Ok ([(inject_Z 30, inject_Z 15, inject_Z 80); (inject_Z 7, inject_Z 40, inject_Z 50)],
        [(30, 15, 80); (7, 40, 50)]).
Proof. vm_compute. reflexivity. Qed.

Lemma hue_dist_ranks_and_emits_medians_witness :
  2 <= Z.of_nat (length (compute_hue_dist (get_as_array StandIn.dusk true))) /\
  exists ranking,
    stable_sort_of (fun a b => (b <= a)%nat) population
      (compute_hue_dist (get_as_array StandIn.dusk true)) ranking /\
    let top := take (Z.to_nat 2) ranking in
    let emitted := map bucket_color top in
    get_dominant_colors_hue_dist StandIn.dusk 2
    = (flat_map bucket_warning top,
       Ok (hsv_to_rgb (normalize_8bit_hsv emitted), normalize_8bit_hsv emitted)).
Proof.
  assert (Hn : 2 <= Z.of_nat (length (compute_hue_dist (get_as_array StandIn.dusk true))))
    by (vm_compute; discriminate).
  split; [exact Hn|]. exact (hue_dist_ranks_and_emits_medians StandIn.dusk 2 Hn).
Defined.

Lemma hue_dist_overflow_raises_IndexError_witness :
  Z.of_nat (length (compute_hue_dist (get_as_array StandIn.teal true))) < 2 /\
  exists out, get_dominant_colors_hue_dist StandIn.teal 2 = (out, Raise IndexError).
Proof.
  assert (Hn : Z.of_nat (length (compute_hue_dist (get_as_array StandIn.teal true))) < 2)
    by (vm_compute; reflexivity).
  split; [exact Hn|]. exact (hue_dist_overflow_raises_IndexError StandIn.teal 2 Hn).
Defined.

(** The same request through the constructor: one warning, then the
    [IndexError]; no image is constructed. *)
Example init_teal_two_colors :
  init {| name := "teal.jpg" |} None HUE_DIST (Some 2) tt
  = ([Warn_similar_colors (Some 2)], Raise IndexError).
Proof. vm_compute. reflexivity. Qed.

End Examples.
End HueDist.

(** ** Construction and remapping *)

Module Construction.
Import AnalyzedImage Spec PyFacts HueDist.

Section Constructor.
Context `{Collaborators}.

Lemma chosen_n_colors_positive resized n_colors h :
  (forall n, n_colors = Some n -> 0 <= n) ->
  1 <= chosen_n_colors resized n_colors h.
Proof.
  intros Hn. unfold chosen_n_colors. destruct n_colors as [n|].
  - destruct (Z.eqb_spec n 0); [apply get_n_heuristic_positive|].
    specialize (Hn n eq_refl). lia.
  - apply get_n_heuristic_positive.
Qed.

(** What a successful construction went through. *)
Lemma init_Ok_inv path resize_long_axis algorithm n_colors_arg h out img :
  init path resize_long_axis algorithm n_colors_arg h = (out, Ok img) ->
  exists resized,
    n_colors img = chosen_n_colors resized n_colors_arg h /\
    ((algorithm = HUE_DIST /\ model img = None /\
      exists out',
        get_dominant_colors_hue_dist resized (n_colors img)
        = (out', Ok (dominant_colors_rgb img, dominant_colors_hsv img))) \/
     (algorithm = KMEANS /\
      exists fitted,
        get_dominant_colors_kmeans resized (n_colors img)
        = Ok (fitted, (dominant_colors_rgb img, dominant_colors_hsv img)))).
Proof.
  unfold init. destruct (image_open path) as [opened|e]; [|discriminate].
  cbn [lift io_bind app].
  set (oriented := if (pil_size opened).1 <? (pil_size opened).2 then _ else _).
  set (resized := pil_resize opened oriented.2).
  fold (chosen_n_colors resized n_colors_arg h).
  set (n := chosen_n_colors resized n_colors_arg h).
  intros Hinit. exists resized.
  destruct algorithm.
  - destruct (if 1 <? n then emit (Warn_similar_colors n_colors_arg) else ret tt)
      as [out0 [[]|e]] eqn:Hwarn; [|by destruct (1 <? n)].
    cbn [io_bind] in Hinit.
    destruct (get_dominant_colors_hue_dist resized n) as [out1 [colors|e]] eqn:Hcolors;
      cbn [io_bind ret] in Hinit; [|discriminate].
    injection Hinit as _ <-. cbn. split; [reflexivity|]. left.
    split; [reflexivity|]. split; [reflexivity|]. exists out1.
    by destruct colors.
  - destruct (get_dominant_colors_kmeans resized n) as [fitted|e] eqn:Hfit;
      cbn [lift io_bind ret] in Hinit; [|discriminate].
    injection Hinit as _ <-. cbn. split; [reflexivity|]. right.
    split; [reflexivity|]. exists fitted.1. by destruct fitted as [? []].
  - discriminate.
Qed.

Lemma hue_dist_Ok_lengths im n out rgbs hsvs :
  get_dominant_colors_hue_dist im n = (out, Ok (rgbs, hsvs)) ->
  length rgbs = Z.to_nat n /\ length hsvs = Z.to_nat n.
Proof.
  intros Hrun.
  set (ranking := ranked (compute_hue_dist (get_as_array im true))).
  destruct (decide (Z.to_nat n <= length ranking)%nat) as [Hin|Hout].
  - rewrite (get_dominant_colors_hue_dist_inside im n Hin) in Hrun.
    injection Hrun as _ <- <-.
    rewrite hsv_to_rgb_length, normalize_8bit_hsv_length, length_map, length_take.
    subst ranking. unfold get_as_array in Hin. lia.
  - rewrite (get_dominant_colors_hue_dist_overflow im n) in Hrun; [discriminate|].
    fold ranking. lia.
Qed.

Lemma kmeans_Ok_lengths im n fitted rgbs hsvs :
  get_dominant_colors_kmeans im n = Ok (fitted, (rgbs, hsvs)) ->
  Z.of_nat (length rgbs) = n /\ Z.of_nat (length hsvs) = n.
Proof.
  unfold get_dominant_colors_kmeans.
  destruct (fit_and_predict (get_as_array im false) n) as [[m p]|e] eqn:Hfit;
    [|discriminate].
  cbn. intros [= _ <- <-].
  rewrite rgb_to_hsv_length, !length_map.
  by rewrite (histogram_length _ _ _ _ Hfit).
Qed.

(** X18. After a successful construction, with a requested colour count that
    is not negative, the RGB and the HSV dominant-colour lists have the same
    length, at least 1, and that length is the colour count of the image. *)
Theorem dominant_color_lists_have_n_colors path resize_long_axis algorithm n_colors_arg
    h out img :
  (forall n, n_colors_arg = Some n -> 0 <= n) ->
  init path resize_long_axis algorithm n_colors_arg h = (out, Ok img) ->
  length (dominant_colors_rgb img) = length (dominant_colors_hsv img) /\
  (1 <= length (dominant_colors_rgb img))%nat /\
  (1 <= length (dominant_colors_hsv img))%nat /\
  Z.of_nat (length (dominant_colors_rgb img)) = n_colors img /\
  Z.of_nat (length (dominant_colors_hsv img)) = n_colors img.
Proof.
  intros Hn Hinit.
  destruct (init_Ok_inv _ _ _ _ _ _ _ Hinit) as (resized & Hcount & Hcase).
  pose proof (chosen_n_colors_positive resized n_colors_arg h Hn) as Hpos.
  rewrite <- Hcount in Hpos.
  destruct Hcase as [(_ & _ & out' & Hrun)|(_ & fitted & Hrun)].
  - apply hue_dist_Ok_lengths in Hrun as [Hr Hh]. lia.
  - apply kmeans_Ok_lengths in Hrun as [Hr Hh]. lia.
Qed.

(** [get_remapped_image] on an image without a fitted model. *)
Lemma get_remapped_image_without_model self other :
  model self = None -> get_remapped_image self other = Raise AttributeError.
Proof. intros Hmodel. unfold get_remapped_image. by rewrite Hmodel. Qed.

(** C8. On an image constructed with an algorithm other than k-means,
    [get_remapped_image] raises (the [AttributeError] of the missing
    [model]); it returns no image. *)
Theorem remap_without_clustering_raises path resize_long_axis algorithm n_colors_arg
    h out img other :
  algorithm <> KMEANS ->
  init path resize_long_axis algorithm n_colors_arg h = (out, Ok img) ->
  get_remapped_image img other = Raise AttributeError.
Proof.
  intros Halg Hinit.
  destruct (init_Ok_inv _ _ _ _ _ _ _ Hinit) as (resized & _ & Hcase).
  destruct Hcase as [(_ & Hmodel & _)|(Hk & _)]; [|done].
  by apply get_remapped_image_without_model.
Qed.

(** The remapped image always has the size of [self], whichever image the
    pixels came from. *)
Lemma get_remapped_image_size self other im :
  get_remapped_image self other = Ok im ->
  pil_size im = (width self, height self).
Proof.
  unfold get_remapped_image.
  destruct (getattr (model self)) as [fitted|e]; [|discriminate]. cbn [Py.bind].
  match goal with |- Py.bind ?m _ = _ -> _ => destruct m as [labels|e] end;
    [|discriminate]. cbn [Py.bind].
  destruct (comprehension _ labels) as [remapped|e]; [|discriminate]. cbn [Py.bind].
  destruct (Np.reshape remapped (height self) (width self)) as [reshaped|e];
    [|discriminate].
  cbn [Py.bind]. by intros [= <-].
Qed.

(** When [other] has another number of pixels than [self], the reshape
    fails. *)
Lemma get_remapped_image_other_count self other fitted remapped :
  model self = Some fitted ->
  0 <= height other * width other ->
  Z.of_nat (length (pil_pixels (pil_image other))) = height other * width other ->
  length (kmeans_predict fitted
            {| rows := height other * width other; cols := None;
               data := pil_pixels (pil_image other) |})
  = length (pil_pixels (pil_image other)) ->
  comprehension (getitem (cluster_centers_ fitted))
    (kmeans_predict fitted
       {| rows := height other * width other; cols := None;
          data := pil_pixels (pil_image other) |}) = Ok remapped ->
  height other * width other <> height self * width self ->
  get_remapped_image self (Some other) = Raise ValueError.
Proof.
  intros Hmodel Hnonneg Hcount Hpredict Hcenters Hne. unfold get_remapped_image.
  rewrite Hmodel. cbn [getattr Py.bind get_as_array array_of data].
  unfold Np.reshape_rows. rewrite Hcount, Z.eqb_refl.
  rewrite (proj2 (Z.leb_le _ _) Hnonneg). cbn [andb Py.bind].
  rewrite Hcenters. cbn [Py.bind].
  assert (Hlen : length remapped = length (pil_pixels (pil_image other))).
  { rewrite <- Hpredict. clear -Hcenters.
    revert remapped Hcenters.
    induction (kmeans_predict _ _) as [|i rest IH]; intros remapped; simpl.
    - by intros [= <-].
    - destruct (getitem _ i); [|discriminate]. simpl.
      destruct (comprehension _ rest) as [ys|]; [|discriminate]. simpl.
      intros [= <-]. simpl. f_equal. by apply IH. }
  unfold Np.reshape. rewrite Hlen, Hcount.
  destruct (Z.eqb_spec (height other * width other) (height self * width self));
    [done|]. by rewrite !andb_false_r.
Qed.

End Constructor.

Section Examples.
Import StandInLaws.

Example init_teal :
  init {| name := "teal.jpg" |} None HUE_DIST (Some 1) tt = ([], Ok StandIn.teal_analyzed).
Proof. vm_compute. reflexivity. Qed.

(** C9. A negative colour count is neither refused nor sent to the heuristic:
    on the one-pixel image, with the hue distribution and the count -1, the
    constructor succeeds and leaves an image whose RGB and HSV
    dominant-colour lists are empty and whose colour count is -1, so the
    lists have no entry and their length is not the colour count. *)
Theorem negative_count_constructs_without_colors :
  exists img,
    init {| name := "teal.jpg" |} None HUE_DIST (Some (-1)) tt = ([], Ok img) /\
    n_colors img = -1 /\
    dominant_colors_rgb img = [] /\
    dominant_colors_hsv img = [] /\
    ~ (1 <= length (dominant_colors_hsv img))%nat /\
    Z.of_nat (length (dominant_colors_hsv img)) <> n_colors img.
Proof.
  eexists. split; [vm_compute; reflexivity|]. cbn.
  repeat split; [lia | discriminate].
Qed.

Example init_square :
  init {| name := "square.jpg" |} None KMEANS (Some 2) tt = ([], Ok StandIn.square_analyzed).
Proof. vm_compute. reflexivity. Qed.

Example init_strip :
  init {| name := "strip.jpg" |} None KMEANS (Some 2) tt = ([], Ok StandIn.strip_analyzed).
Proof. vm_compute. reflexivity. Qed.

Lemma dominant_color_lists_have_n_colors_witness :
  ((forall n, Some 2 = Some n -> 0 <= n) /\
   init {| name := "square.jpg" |} None KMEANS (Some 2) tt
   = ([], Ok StandIn.square_analyzed)) /\
  length (dominant_colors_rgb StandIn.square_analyzed)
  = length (dominant_colors_hsv StandIn.square_analyzed) /\
  (1 <= length (dominant_colors_rgb StandIn.square_analyzed))%nat /\
  (1 <= length (dominant_colors_hsv StandIn.square_analyzed))%nat /\
  Z.of_nat (length (dominant_colors_rgb StandIn.square_analyzed))
  = n_colors StandIn.square_analyzed /\
  Z.of_nat (length (dominant_colors_hsv StandIn.square_analyzed))
  = n_colors StandIn.square_analyzed.
Proof.
  assert (Hn : forall n, Some 2 = Some n -> 0 <= n) by (intros n [= <-]; lia).
  assert (Hinit : init {| name := "square.jpg" |} None KMEANS (Some 2) tt
                  = ([], Ok StandIn.square_analyzed)) by (vm_compute; reflexivity).
  split; [by split|].
  exact (dominant_color_lists_have_n_colors _ _ _ _ _ _ _ Hn Hinit).
Defined.

Lemma remap_without_clustering_raises_witness :
  (HUE_DIST <> KMEANS /\
   init {| name := "teal.jpg" |} None HUE_DIST (Some 1) tt
   = ([], Ok StandIn.teal_analyzed)) /\
  get_remapped_image StandIn.teal_analyzed None = Raise AttributeError.
Proof.
  assert (Halg : HUE_DIST <> KMEANS) by discriminate.
  assert (Hinit : init {| name := "teal.jpg" |} None HUE_DIST (Some 1) tt
                  = ([], Ok StandIn.teal_analyzed)) by (vm_compute; reflexivity).
  split; [by split|].
  exact (remap_without_clustering_raises _ _ _ _ _ _ _ None Halg Hinit).
Defined.

(** C7. The pixels of [other] are assigned to the centres of [self] and
    replaced by them, but the result is reshaped to the height and width of
    [self]: remapping the four-by-one image with the model of the two-by-two
    image gives a two-by-two image. *)
Theorem remap_of_other_has_size_of_self :
  pil_size (pil_image StandIn.strip_analyzed) = (4, 1) /\
  get_remapped_image StandIn.square_analyzed (Some StandIn.strip_analyzed)
  = Ok {| pil_size := (2, 2);
          pil_pixels := [(255, 0, 0); (0, 0, 255); (0, 0, 255); (255, 0, 0)] |}.
Proof. split; [reflexivity|]. vm_compute. reflexivity. Qed.

(** With another number of pixels in [other] the reshape raises. *)
Example remap_of_other_with_fewer_pixels :
  get_remapped_image StandIn.square_analyzed (Some StandIn.teal_analyzed)
  = Raise ValueError.
Proof. vm_compute. reflexivity. Qed.

(** Without [other] the image is remapped to its own centres. *)
Example remap_of_self :
  get_remapped_image StandIn.square_analyzed None
  = Ok {| pil_size := (2, 2);
          pil_pixels := [(255, 0, 0); (255, 0, 0); (0, 0, 255); (255, 0, 0)] |}.
Proof. vm_compute. reflexivity. Qed.

End Examples.
End Construction.

(** ** More on the collection sorter *)

Module SorterMore.
Import AnalyzedImage Spec PyFacts SorterFacts.

#[local] Instance Named_dec a img : Decision (Named a img).
Proof. unfold Named. apply _. Defined.

Lemma rotate_0_id {A} (l : list A) : rotate 0 l = l.
Proof.
  unfold rotate. destruct (length l); simpl;
    by rewrite ?Nat.sub_diag, ?drop_0, ?take_0, app_nil_r.
Qed.

Lemma sorted_color_Colored image_reps : Forall Colored (sorted_color image_reps).
Proof. apply Forall_forall. by intros img [Hc _]%elem_of_sorted_color. Qed.

Lemma sorted_bw_Monochrome image_reps : Forall Monochrome (sorted_bw image_reps).
Proof. apply Forall_forall. by intros img [Hm _]%elem_of_sorted_bw. Qed.

Lemma sorted_groups_Permutation image_reps :
  sorted_color image_reps ++ sorted_bw image_reps ≡ₚ image_reps.
Proof.
  unfold sorted_color, sorted_bw.
  rewrite (sort_by_Permutation tuple_lt hue_value_key).
  rewrite (sort_by_Permutation int_lt value_key).
  rewrite Permutation_app_comm. apply filter_app_complement.
Qed.

(** The pieces of [colorsort] on well-formed input, whatever the anchor. *)
Lemma colorsort_shape image_reps anchor :
  Forall has_dominant_color image_reps ->
  exists out k,
    colorsort image_reps anchor
    = (out, Ok (rotate k (sorted_color image_reps) ++ sorted_bw image_reps,
                rotate k (sorted_color image_reps),
                sorted_bw image_reps)).
Proof.
  intros Hwf. rewrite (colorsort_eq image_reps anchor Hwf).
  destruct (truthy anchor).
  - destruct (anchor_loop (sorted_color image_reps) anchor 0) as [k|e].
    + by exists [], k.
    + exists [Print_not_found anchor], 0%nat. by rewrite rotate_0_id.
  - exists [], 0%nat. by rewrite rotate_0_id.
Qed.

(** The first image without a dominant colour stops the partition loop. *)
Lemma partition_loop_IndexError image_reps : forall color bw,
  ~ Forall has_dominant_color image_reps ->
  partition_loop image_reps color bw = Raise IndexError.
Proof.
  induction image_reps as [|img reps IH]; intros color bw Hbad.
  - destruct Hbad. constructor.
  - simpl. destruct (dominant_colors_hsv img) as [|c cs] eqn:Hcs.
    + unfold is_bw, get_dominant_color_hsv, get_dominant_colors_hsv. by rewrite Hcs.
    + assert (Hd : has_dominant_color img) by (unfold has_dominant_color; congruence).
      rewrite (is_bw_Ok img Hd). simpl.
      assert (Hrest : ~ Forall has_dominant_color reps)
        by (intros Hrest; apply Hbad; by constructor).
      destruct (bool_decide (Monochrome img)); by apply IH.
Qed.

(** X1. [colorsort] loses and duplicates no image: the presentation order is
    the colour sequence followed by the monochrome sequence and is a
    permutation of the input; the colour sequence holds colour images only
    and the monochrome sequence monochrome images only. *)
Theorem colorsort_keeps_every_image image_reps anchor :
  Forall has_dominant_color image_reps ->
  exists out combined color bw,
    colorsort image_reps anchor = (out, Ok (combined, color, bw)) /\
    combined = color ++ bw /\
    combined ≡ₚ image_reps /\
    length combined = length image_reps /\
    Forall Colored color /\
    Forall Monochrome bw.
Proof.
  intros Hwf. destruct (colorsort_shape image_reps anchor Hwf) as (out & k & ->).
  eexists _, _, _, _. split; [reflexivity|]. split; [reflexivity|].
  assert (Hperm : rotate k (sorted_color image_reps) ++ sorted_bw image_reps ≡ₚ image_reps).
  { rewrite <- (sorted_groups_Permutation image_reps) at 3.
    apply Permutation_app_tail. unfold rotate.
    rewrite Permutation_app_comm. by rewrite take_drop. }
  split; [exact Hperm|]. split; [by rewrite Hperm|].
  split; [|apply sorted_bw_Monochrome].
  apply Forall_forall. intros img Himg. apply elem_of_rotate in Himg.
  by apply elem_of_sorted_color in Himg as [Hc _].
Qed.

Lemma colorsort_keeps_every_image_witness :
  Forall has_dominant_color Samples.mixed /\
  exists out combined color bw,
    colorsort Samples.mixed (Some "c"%string) = (out, Ok (combined, color, bw)) /\
    combined = color ++ bw /\
    combined ≡ₚ Samples.mixed /\
    length combined = length Samples.mixed /\
    Forall Colored color /\
    Forall Monochrome bw.
Proof.
  assert (Hwf : Forall has_dominant_color Samples.mixed)
    by (repeat constructor; discriminate).
  split; [exact Hwf|].
  exact (colorsort_keeps_every_image Samples.mixed (Some "c"%string) Hwf).
Defined.

(** X2. When some image of the collection has no dominant colour,
    [colorsort] raises [IndexError], whatever the anchor, and prints nothing:
    the partition loop calls [is_bw] on every image before anything else is
    read. *)
Theorem colorsort_raises_without_dominant_color image_reps anchor :
  Exists (fun img => dominant_colors_hsv img = []) image_reps ->
  colorsort image_reps anchor = ([], Raise IndexError).
Proof.
  intros Hex. unfold colorsort.
  rewrite (partition_loop_IndexError image_reps [] []); [reflexivity|].
  intros Hwf. apply Exists_exists in Hex as (img & Hin & Hnil).
  by apply (proj1 (Forall_forall _ _) Hwf img Hin).
Qed.

Lemma colorsort_raises_without_dominant_color_witness :
  Exists (fun img => dominant_colors_hsv img = [])
    [Samples.img_a; Samples.blank; Samples.img_b] /\
  colorsort [Samples.img_a; Samples.blank; Samples.img_b] (Some "a"%string)
  = ([], Raise IndexError).
Proof.
  assert (Hex : Exists (fun img => dominant_colors_hsv img = [])
                  [Samples.img_a; Samples.blank; Samples.img_b])
    by (apply Exists_cons_tl, Exists_cons_hd; reflexivity).
  split; [exact Hex|].
  exact (colorsort_raises_without_dominant_color _ (Some "a"%string) Hex).
Defined.

(** An image whose list of dominant colours is empty. *)
Example colorsort_blank_image :
  colorsort [Samples.img_a; Samples.blank; Samples.img_b] (Some "a"%string)
  = ([], Raise IndexError).
Proof. vm_compute. reflexivity. Qed.

(** X3. With a supplied anchor, the not-found line is printed exactly when no
    colour image carries the anchor name, once; nothing else is printed. *)
Theorem colorsort_prints_iff_anchor_absent image_reps a :
  Forall has_dominant_color image_reps ->
  a <> ""%string ->
  (colorsort image_reps (Some a)).1
  = if decide (Exists (fun img => Colored img /\ Named a img) image_reps)
    then []
    else [Print_not_found (Some a)].
Proof.
  intros Hwf Ha. rewrite (colorsort_eq image_reps (Some a) Hwf), (truthy_Some a Ha).
  pose proof (anchor_loop_spec (sorted_color image_reps) (Some a) 0) as Hspec.
  destruct (anchor_loop (sorted_color image_reps) (Some a) 0) as [k|e];
    destruct (decide (Exists _ image_reps)) as [Hex|Hnex]; simpl; try reflexivity.
  - destruct Hspec as (_ & (img & Hget & Hname) & _). destruct Hnex.
    apply Exists_exists. exists img.
    apply list_elem_of_lookup_2, elem_of_sorted_color in Hget as [Hc Hin].
    split; [done|]. split; [done|]. by apply name_eq_Named.
  - destruct Hspec as (_ & Hnone).
    apply Exists_exists in Hex as (img & Hin & Hc & Hname).
    assert (Hs : img ∈ sorted_color image_reps) by (by apply elem_of_sorted_color).
    apply list_elem_of_lookup_1 in Hs as [j Hj].
    specialize (Hnone j img ltac:(lia) Hj). by apply name_eq_not_Named in Hnone.
Qed.

Lemma colorsort_prints_iff_anchor_absent_witness :
  (Forall has_dominant_color Samples.mixed /\ "h"%string <> ""%string) /\
  (colorsort Samples.mixed (Some "h"%string)).1
  = if decide (Exists (fun img => Colored img /\ Named "h" img) Samples.mixed)
    then []
    else [Print_not_found (Some "h"%string)].
Proof.
  assert (Hwf : Forall has_dominant_color Samples.mixed)
    by (repeat constructor; discriminate).
  assert (Hh : "h"%string <> ""%string) by discriminate.
  split; [by split|].
  exact (colorsort_prints_iff_anchor_absent Samples.mixed "h" Hwf Hh).
Defined.

(** X4. Without an anchor, [None] or the empty string, nothing is scanned:
    the colour sequence is the sorted one and nothing is printed; the
    monochrome sequence is the same for every anchor. *)
Theorem colorsort_without_anchor image_reps anchor :
  Forall has_dominant_color image_reps ->
  colorsort image_reps None
  = ([], Ok (sorted_color image_reps ++ sorted_bw image_reps,
             sorted_color image_reps,
             sorted_bw image_reps)) /\
  colorsort image_reps (Some ""%string) = colorsort image_reps None /\
  exists out combined color,
    colorsort image_reps anchor = (out, Ok (combined, color, sorted_bw image_reps)).
Proof.
  intros Hwf. split; [by rewrite (colorsort_eq image_reps None Hwf)|].
  split; [by rewrite !(colorsort_eq image_reps _ Hwf)|].
  destruct (colorsort_shape image_reps anchor Hwf) as (out & k & ->). eauto.
Qed.

Lemma colorsort_without_anchor_witness :
  Forall has_dominant_color Samples.mixed /\
  colorsort Samples.mixed None
  = ([], Ok (sorted_color Samples.mixed ++ sorted_bw Samples.mixed,
             sorted_color Samples.mixed,
             sorted_bw Samples.mixed)) /\
  colorsort Samples.mixed (Some ""%string) = colorsort Samples.mixed None /\
  exists out combined color,
    colorsort Samples.mixed (Some "b"%string)
    = (out, Ok (combined, color, sorted_bw Samples.mixed)).
Proof.
  assert (Hwf : Forall has_dominant_color Samples.mixed)
    by (repeat constructor; discriminate).
  split; [exact Hwf|].
  exact (colorsort_without_anchor Samples.mixed (Some "b"%string) Hwf).
Defined.

(** Sorting a list that is in order changes nothing. *)
Lemma sort_by_in_order {A K} (lt : K -> K -> bool) (key : A -> K) l :
  Sorted (in_order lt key) l -> sort_by lt key l = l.
Proof.
  induction 1 as [|x l _ IH Hhd]; [reflexivity|].
  change (insert_by lt key x (sort_by lt key l) = x :: l). rewrite IH.
  destruct Hhd as [|y l Hxy]; [reflexivity|]. simpl.
  unfold in_order in Hxy. by rewrite Hxy.
Qed.

Lemma filter_all {A} (P : A -> Prop) `{!forall a, Decision (P a)} l :
  Forall P l -> filter P l = l.
Proof.
  induction 1 as [|x l Hx _ IH]; [reflexivity|].
  rewrite filter_cons. destruct (decide (P x)); [by rewrite IH | done].
Qed.

Lemma filter_none {A} (P : A -> Prop) `{!forall a, Decision (P a)} l :
  Forall (fun a => ~ P a) l -> filter P l = [].
Proof.
  induction 1 as [|x l Hx _ IH]; [reflexivity|].
  rewrite filter_cons. destruct (decide (P x)); [done | exact IH].
Qed.

(** The groups of a list that is already a colour part followed by a
    monochrome part. *)
Lemma filter_groups color bw :
  Forall Colored color -> Forall Monochrome bw ->
  filter Colored (color ++ bw) = color /\ filter Monochrome (color ++ bw) = bw.
Proof.
  intros Hc Hb. rewrite !filter_app. split.
  - rewrite (filter_all Colored color Hc), (filter_none Colored bw); [by rewrite app_nil_r|].
    eapply Forall_impl; [exact Hb|]. intros img Hm Hcol. by apply Hcol.
  - rewrite (filter_none Monochrome color Hc), (filter_all Monochrome bw Hb). reflexivity.
Qed.

Lemma Forall_has_dominant_color_Permutation l l' :
  l ≡ₚ l' -> Forall has_dominant_color l' -> Forall has_dominant_color l.
Proof. intros Hperm Hwf. by rewrite Hperm. Qed.

(** X5. Without an anchor [colorsort] is idempotent: run on its own
    presentation order it returns the same three sequences. *)
Theorem colorsort_idempotent image_reps out combined color bw :
  Forall has_dominant_color image_reps ->
  colorsort image_reps None = (out, Ok (combined, color, bw)) ->
  colorsort combined None = ([], Ok (combined, color, bw)).
Proof.
  intros Hwf. rewrite (colorsort_eq image_reps None Hwf). simpl.
  intros [= _ <- <- <-].
  set (S := sorted_color image_reps). set (B := sorted_bw image_reps).
  assert (Hwf' : Forall has_dominant_color (S ++ B))
    by (eapply Forall_has_dominant_color_Permutation;
        [apply sorted_groups_Permutation | exact Hwf]).
  rewrite (colorsort_eq (S ++ B) None Hwf'). simpl.
  destruct (filter_groups S B (sorted_color_Colored _) (sorted_bw_Monochrome _))
    as [HS HB].
  assert (HS' : sorted_color (S ++ B) = S).
  { unfold sorted_color at 1. rewrite HS.
    apply sort_by_in_order, sort_by_Sorted, tuple_lt_asym. }
  assert (HB' : sorted_bw (S ++ B) = B).
  { unfold sorted_bw at 1. rewrite HB.
    apply sort_by_in_order, sort_by_Sorted, int_lt_asym. }
  by rewrite HS', HB'.
Qed.

Lemma colorsort_idempotent_witness :
  (Forall has_dominant_color Samples.mixed /\
   colorsort Samples.mixed None
   = ([], Ok ([Samples.img_c; Samples.img_a; Samples.img_b; Samples.grey_h; Samples.grey_g],
              [Samples.img_c; Samples.img_a; Samples.img_b],
              [Samples.grey_h; Samples.grey_g]))) /\
  colorsort [Samples.img_c; Samples.img_a; Samples.img_b; Samples.grey_h; Samples.grey_g] None
  = ([], Ok ([Samples.img_c; Samples.img_a; Samples.img_b; Samples.grey_h; Samples.grey_g],
             [Samples.img_c; Samples.img_a; Samples.img_b],
             [Samples.grey_h; Samples.grey_g])).
Proof.
  assert (Hwf : Forall has_dominant_color Samples.mixed)
    by (repeat constructor; discriminate).
  assert (Hrun : colorsort Samples.mixed None
    = ([], Ok ([Samples.img_c; Samples.img_a; Samples.img_b; Samples.grey_h; Samples.grey_g],
               [Samples.img_c; Samples.img_a; Samples.img_b],
               [Samples.grey_h; Samples.grey_g]))) by (vm_compute; reflexivity).
  split; [by split|].
  exact (colorsort_idempotent Samples.mixed _ _ _ _ Hwf Hrun).
Defined.

#[local] Instance in_order_tuple_lt_Transitive {A} (key : A -> Z * Z) :
  Transitive (in_order tuple_lt key).
Proof.
  intros a b c. unfold in_order, tuple_lt.
  destruct (key a), (key b), (key c); simpl. lia.
Qed.

(** X6. With an anchor that is found, and colour images whose sort keys are
    pairwise different, [colorsort] is idempotent as well: run on its own
    presentation order with the same anchor it returns the same three
    sequences, and prints nothing. *)
Theorem colorsort_idempotent_with_anchor image_reps a k img out combined color bw :
  Forall has_dominant_color image_reps ->
  a <> ""%string ->
  first_named a (sorted_color image_reps) k img ->
  (forall x y, x ∈ image_reps -> y ∈ image_reps -> Colored x -> Colored y ->
               hue_value_key x = hue_value_key y -> x = y) ->
  colorsort image_reps (Some a) = (out, Ok (combined, color, bw)) ->
  colorsort combined (Some a) = ([], Ok (combined, color, bw)).
Proof.
  intros Hwf Ha Hfirst Hdistinct.
  rewrite (colorsort_eq image_reps (Some a) Hwf), (truthy_Some a Ha).
  rewrite (anchor_loop_found _ a k img Hfirst). intros [= _ <- <- <-].
  set (S := sorted_color image_reps). set (B := sorted_bw image_reps).
  assert (HR : rotate k S ≡ₚ S).
  { unfold rotate. rewrite Permutation_app_comm. by rewrite take_drop. }
  assert (Hwf' : Forall has_dominant_color (rotate k S ++ B)).
  { eapply Forall_has_dominant_color_Permutation; [|exact Hwf].
    rewrite HR. apply sorted_groups_Permutation. }
  assert (HRc : Forall Colored (rotate k S)).
  { apply Forall_forall. intros x Hx%elem_of_rotate.
    by apply elem_of_sorted_color in Hx as [Hc _]. }
  destruct (filter_groups (rotate k S) B HRc (sorted_bw_Monochrome _)) as [HS HB].
  assert (HS' : sorted_color (rotate k S ++ B) = S).
  { unfold sorted_color at 1. rewrite HS.
    apply (Sorted_unique_strong (in_order tuple_lt hue_value_key)).
    - intros x y Hx Hy Hxy Hyx.
      rewrite (sort_by_Permutation tuple_lt hue_value_key), HR in Hx.
      apply elem_of_sorted_color in Hx as [Hxc Hxin].
      apply elem_of_sorted_color in Hy as [Hyc Hyin].
      apply Hdistinct; [done..|].
      unfold in_order, tuple_lt in Hxy, Hyx.
      destruct (hue_value_key x), (hue_value_key y); simpl in *. f_equal; lia.
    - apply sort_by_Sorted, tuple_lt_asym.
    - apply sort_by_Sorted, tuple_lt_asym.
    - by rewrite (sort_by_Permutation tuple_lt hue_value_key). }
  assert (HB' : sorted_bw (rotate k S ++ B) = B).
  { unfold sorted_bw at 1. rewrite HB.
    apply sort_by_in_order, sort_by_Sorted, int_lt_asym. }
  rewrite (colorsort_eq _ (Some a) Hwf'), (truthy_Some a Ha), HS', HB'.
  subst S B. by rewrite (anchor_loop_found _ a k img Hfirst).
Qed.

Lemma colorsort_idempotent_with_anchor_witness :
  (Forall has_dominant_color Samples.mixed /\
   "b"%string <> ""%string /\
   first_named "b" (sorted_color Samples.mixed) 2 Samples.img_b /\
   (forall x y, x ∈ Samples.mixed -> y ∈ Samples.mixed -> Colored x -> Colored y ->
                hue_value_key x = hue_value_key y -> x = y) /\
   colorsort Samples.mixed (Some "b"%string)
   = ([], Ok ([Samples.img_b; Samples.img_c; Samples.img_a; Samples.grey_h; Samples.grey_g],
              [Samples.img_b; Samples.img_c; Samples.img_a],
              [Samples.grey_h; Samples.grey_g]))) /\
  colorsort [Samples.img_b; Samples.img_c; Samples.img_a; Samples.grey_h; Samples.grey_g]
    (Some "b"%string)
  = ([], Ok ([Samples.img_b; Samples.img_c; Samples.img_a; Samples.grey_h; Samples.grey_g],
             [Samples.img_b; Samples.img_c; Samples.img_a],
             [Samples.grey_h; Samples.grey_g])).
Proof.
  assert (Hwf : Forall has_dominant_color Samples.mixed)
    by (repeat constructor; discriminate).
  assert (Hb : "b"%string <> ""%string) by discriminate.
  assert (Hfirst : first_named "b" (sorted_color Samples.mixed) 2 Samples.img_b).
  { split; [reflexivity|]. split; [reflexivity|].
    intros j img Hj Hget Hname. unfold Named in Hname.
    destruct j as [|[|j]]; [| |lia];
      vm_compute in Hget; injection Hget as <-; discriminate. }
  assert (Hdistinct : forall x y, x ∈ Samples.mixed -> y ∈ Samples.mixed ->
                                  Colored x -> Colored y ->
                                  hue_value_key x = hue_value_key y -> x = y).
  { intros x y Hx Hy Hcx Hcy Hk.
    apply list_elem_of_In in Hx, Hy. simpl in Hx, Hy.
    destruct Hx as [<-|[<-|[<-|[<-|[<-|[]]]]]];
      destruct Hy as [<-|[<-|[<-|[<-|[<-|[]]]]]];
      first [ reflexivity
            | exfalso; apply Hcx; reflexivity
            | exfalso; apply Hcy; reflexivity
            | vm_compute in Hk; discriminate Hk ]. }
  assert (Hrun : colorsort Samples.mixed (Some "b"%string)
    = ([], Ok ([Samples.img_b; Samples.img_c; Samples.img_a; Samples.grey_h; Samples.grey_g],
               [Samples.img_b; Samples.img_c; Samples.img_a],
               [Samples.grey_h; Samples.grey_g]))) by (vm_compute; reflexivity).
  split; [exact (conj Hwf (conj Hb (conj Hfirst (conj Hdistinct Hrun))))|].
  exact (colorsort_idempotent_with_anchor Samples.mixed "b" 2 Samples.img_b _ _ _ _
           Hwf Hb Hfirst Hdistinct Hrun).
Defined.

(** Equal sort keys break this: "q" and "r" have the same key, the anchor
    "r" is sorted behind "q", and the second run puts "q" behind "r". *)
Example colorsort_anchor_rerun_with_equal_keys :
  let p := Samples.swatch "p" 10 50 50 in
  let q := Samples.swatch "q" 100 50 50 in
  let r := Samples.swatch "r" 100 50 50 in
  let s := Samples.swatch "s" 200 50 50 in
  (colorsort [p; q; r; s] (Some "r"%string)).2 = Ok ([r; s; p; q], [r; s; p; q], []) /\
  (colorsort [r; s; p; q] (Some "r"%string)).2 = Ok ([r; q; s; p], [r; q; s; p], []).
Proof. split; vm_compute; reflexivity. Qed.

(** X7. The deque loop rotates to the left by [k] when the deque has at least
    [k] images, and running it for the remaining [length - k] rounds restores
    the deque. *)
Theorem rotate_loop_round_trip color k :
  (k <= length color)%nat ->
  rotate_loop k color = Ok (drop k color ++ take k color) /\
  rotate_loop (length color - k) (drop k color ++ take k color) = Ok color.
Proof.
  intros Hk. split; [by apply rotate_loop_drop_take|].
  assert (Hlen : length (drop k color ++ take k color) = length color).
  { rewrite length_app, length_drop, length_take_le by lia. lia. }
  rewrite rotate_loop_drop_take by lia.
  f_equal.
  rewrite drop_app_length' by (rewrite length_drop; lia).
  rewrite take_app_length' by (rewrite length_drop; lia).
  apply take_drop.
Qed.

Lemma rotate_loop_round_trip_witness :
  (2 <= length Samples.three_colors)%nat /\
  rotate_loop 2 Samples.three_colors
  = Ok (drop 2 Samples.three_colors ++ take 2 Samples.three_colors) /\
  rotate_loop (length Samples.three_colors - 2)
    (drop 2 Samples.three_colors ++ take 2 Samples.three_colors)
  = Ok Samples.three_colors.
Proof.
  assert (Hk : (2 <= length Samples.three_colors)%nat) by (simpl; lia).
  split; [exact Hk|]. exact (rotate_loop_round_trip Samples.three_colors 2 Hk).
Defined.

(** X8. For a dominant hue in [0, 360) the sort metric wraps at 270: hues
    below 270 are moved up by 90 and hues from 270 on are moved down to
    [0, 90), so that they sort first; the hue is recovered from the metric by
    adding 270 modulo 360. *)
Theorem get_sort_metric_wraps_at_270 img :
  has_dominant_color img ->
  0 <= item0 (dominant_hsv img) < 360 ->
  exists m,
    get_sort_metric img = Ok m /\
    (item0 (dominant_hsv img) < 270 -> m = item0 (dominant_hsv img) + 90) /\
    (270 <= item0 (dominant_hsv img) -> m = item0 (dominant_hsv img) - 270) /\
    (m + 270) mod 360 = item0 (dominant_hsv img).
Proof.
  intros Hd Hh. exists (sort_metric img). split; [by apply get_sort_metric_Ok|].
  unfold sort_metric. set (h := item0 (dominant_hsv img)) in *.
  destruct (decide (h < 270)) as [Hlt|Hge].
  - rewrite (Z.mod_small (h + 90)) by lia.
    split; [done|]. split; [lia|].
    replace (h + 90 + 270) with (h + 1 * 360) by lia.
    rewrite Z.mod_add by lia. apply Z.mod_small. lia.
  - replace (h + 90) with (h - 270 + 1 * 360) by lia.
    rewrite Z.mod_add by lia. rewrite (Z.mod_small (h - 270)) by lia.
    split; [lia|]. split; [done|].
    replace (h - 270 + 270) with h by lia. apply Z.mod_small. lia.
Qed.

Lemma get_sort_metric_wraps_at_270_witness :
  (has_dominant_color Samples.img_c /\ 0 <= item0 (dominant_hsv Samples.img_c) < 360) /\
  exists m,
    get_sort_metric Samples.img_c = Ok m /\
    (item0 (dominant_hsv Samples.img_c) < 270 -> m = item0 (dominant_hsv Samples.img_c) + 90) /\
    (270 <= item0 (dominant_hsv Samples.img_c) -> m = item0 (dominant_hsv Samples.img_c) - 270) /\
    (m + 270) mod 360 = item0 (dominant_hsv Samples.img_c).
Proof.
  assert (Hd : has_dominant_color Samples.img_c) by discriminate.
  assert (Hh : 0 <= item0 (dominant_hsv Samples.img_c) < 360)
    by (vm_compute; split; [discriminate | reflexivity]).
  split; [by split|]. exact (get_sort_metric_wraps_at_270 Samples.img_c Hd Hh).
Defined.

(** *** File names *)

Lemma string_app_cons c (a b : string) : String c a +:+ b = String c (a +:+ b).
Proof. reflexivity. Qed.

Lemma string_app_nil (b : string) : "" +:+ b = b.
Proof. reflexivity. Qed.

Lemma string_app_assoc (a b c : string) : (a +:+ b) +:+ c = a +:+ (b +:+ c).
Proof.
  induction a as [|x a IH]; [reflexivity|].
  by rewrite !string_app_cons, IH.
Qed.

(** Two strings that agree up to and including their first [_] have the
    same text before it. *)
Lemma underscore_free_prefix a b x y :
  underscore_free a -> underscore_free b ->
  a +:+ String "_" x = b +:+ String "_" y -> a = b.
Proof.
  revert b. induction a as [|c a IH]; intros [|d b];
    rewrite ?string_app_cons, ?string_app_nil; simpl.
  - done.
  - intros _ [Hd _] [= <- _]. done.
  - intros [Hc _] _ [= -> _]. done.
  - intros [_ Ha] [_ Hb] [= -> Heq]. f_equal. by apply IH.
Qed.

Lemma pretty_N_go_underscore_free x : forall s,
  underscore_free s -> underscore_free (pretty_N_go x s).
Proof.
  induction (N.lt_wf_0 x) as [x _ IH]. intros s Hs.
  destruct (decide (x = 0)%N) as [->|Hx]; [by rewrite pretty_N_go_0|].
  rewrite pretty_N_go_step by lia. apply IH.
  - apply N.div_lt; lia.
  - simpl. split; [|done]. unfold pretty_N_char. by repeat case_match.
Qed.

Lemma pretty_Z_underscore_free (i : Z) : underscore_free (pretty i).
Proof.
  assert (Hpos : forall p, underscore_free (pretty (N.pos p))).
  { intros p. unfold pretty, pretty_N. destruct (decide (N.pos p = 0)%N); [done|].
    by apply pretty_N_go_underscore_free. }
  destruct i as [|p|p]; [by repeat split | apply Hpos |].
  change (underscore_free (String "-" (pretty (N.pos p)))). split; [done | apply Hpos].
Qed.

(** X9. File names generated with different indices are different, whatever
    the images and the base names: the index is the text before the first
    underscore. *)
Theorem generate_filename_index_inj img1 img2 i j base1 base2 file :
  generate_filename img1 (Some i) base1 = Ok file ->
  generate_filename img2 (Some j) base2 = Ok file ->
  i = j.
Proof.
  unfold generate_filename.
  destruct (get_dominant_color_hsv img1) as [c1|e]; [|discriminate].
  destruct (get_dominant_color_hsv img2) as [c2|e]; [|discriminate].
  cbn [Py.bind]. intros [= <-] [= Heq].
  rewrite !string_app_assoc, !string_app_cons, !string_app_nil in Heq.
  apply underscore_free_prefix in Heq; [|apply pretty_Z_underscore_free..].
  symmetry. by apply (inj pretty).
Qed.

Lemma generate_filename_index_inj_witness :
  (generate_filename Samples.img_a (Some 3) "out"
   = Ok "3_out_hue=10_sat=80_val=90_n=1.jpg"%string /\
   generate_filename Samples.img_a (Some 3) "out"
   = Ok "3_out_hue=10_sat=80_val=90_n=1.jpg"%string) /\
  3 = 3.
Proof.
  assert (H : generate_filename Samples.img_a (Some 3) "out"
              = Ok "3_out_hue=10_sat=80_val=90_n=1.jpg"%string)
    by (vm_compute; reflexivity).
  split; [by split|].
  exact (generate_filename_index_inj Samples.img_a Samples.img_a 3 3 "out" "out" _ H H).
Defined.

End SorterMore.

(** ** More on construction, extraction and remapping *)

Module ConstructionMore.
Import AnalyzedImage Spec PyFacts HueDist Construction.

Section Constructor.
Context `{Collaborators}.

(** The constructor after a successful [Image.open], one equation per
    algorithm. *)
Lemma init_HUE_DIST path resize_long_axis n_colors_arg h opened :
  image_open path = Ok opened ->
  init path resize_long_axis HUE_DIST n_colors_arg h
  = let resized := resized_image opened resize_long_axis in
    let n := chosen_n_colors resized n_colors_arg h in
    let* _ := (if 1 <? n then emit (Warn_similar_colors n_colors_arg) else ret tt) in
    let* colors := get_dominant_colors_hue_dist resized n in
    ret {| image_path := path;
           dominant_color_algorithm := HUE_DIST;
           orientation := orientation_of opened;
           pil_image := resized;
           width := (pil_size resized).1;
           height := (pil_size resized).2;
           n_colors := n;
           dominant_colors_rgb := colors.1;
           dominant_colors_hsv := colors.2;
           model := None;
           predicted := None;
           cluster_histogram := None |}.
Proof.
  intros Hopen. unfold init. rewrite Hopen. unfold io_bind at 1, lift at 1.
  cbn beta iota.
  match goal with
  | |- (let '(_, _) := ?X in _) = ?Y => assert (E : X = Y); [|rewrite E; by destruct Y]
  end.
  unfold resized_image, resized_size, orientation_of, chosen_n_colors.
  destruct ((pil_size opened).1 <? (pil_size opened).2); reflexivity.
Qed.

Lemma init_KMEANS path resize_long_axis n_colors_arg h opened :
  image_open path = Ok opened ->
  init path resize_long_axis KMEANS n_colors_arg h
  = let resized := resized_image opened resize_long_axis in
    let n := chosen_n_colors resized n_colors_arg h in
    let* fitted := lift (get_dominant_colors_kmeans resized n) in
    ret {| image_path := path;
           dominant_color_algorithm := KMEANS;
           orientation := orientation_of opened;
           pil_image := resized;
           width := (pil_size resized).1;
           height := (pil_size resized).2;
           n_colors := n;
           dominant_colors_rgb := fitted.2.1;
           dominant_colors_hsv := fitted.2.2;
           model := Some fitted.1.1.1;
           predicted := Some fitted.1.1.2;
           cluster_histogram := Some fitted.1.2 |}.
Proof.
  intros Hopen. unfold init. rewrite Hopen. unfold io_bind at 1, lift at 1.
  cbn beta iota.
  match goal with
  | |- (let '(_, _) := ?X in _) = ?Y => assert (E : X = Y); [|rewrite E; by destruct Y]
  end.
  unfold resized_image, resized_size, orientation_of, chosen_n_colors.
  destruct ((pil_size opened).1 <? (pil_size opened).2); reflexivity.
Qed.

Lemma init_open_error path resize_long_axis algorithm n_colors_arg h e :
  image_open path = Raise e ->
  init path resize_long_axis algorithm n_colors_arg h = ([], Raise e).
Proof. intros Hopen. unfold init. by rewrite Hopen. Qed.

Lemma init_OTHER_ALGORITHM path resize_long_axis n_colors_arg h opened :
  image_open path = Ok opened ->
  init path resize_long_axis OTHER_ALGORITHM n_colors_arg h = ([], Raise ValueError).
Proof. intros Hopen. unfold init. by rewrite Hopen. Qed.

Lemma normalize_8bit_hsv_nil : normalize_8bit_hsv [] = [].
Proof. apply nil_length_inv. by rewrite normalize_8bit_hsv_length. Qed.

Lemma hsv_to_rgb_nil : hsv_to_rgb [] = [].
Proof. apply nil_length_inv. by rewrite hsv_to_rgb_length. Qed.

(** X10. With a colour count of 0 or less the hue-distribution extractor
    reads no bucket: it returns two empty lists, logs nothing and does not
    fail, whatever the image. *)
Theorem hue_dist_without_colors im n :
  n <= 0 ->
  get_dominant_colors_hue_dist im n = ([], Ok ([], [])).
Proof.
  intros Hn. assert (Hz : Z.to_nat n = 0%nat) by lia.
  rewrite get_dominant_colors_hue_dist_inside by (rewrite Hz; lia).
  rewrite Hz, take_0. cbn [map flat_map].
  by rewrite normalize_8bit_hsv_nil, hsv_to_rgb_nil.
Qed.

(** X11. A negative colour count is taken as it is: for an image that opens
    with a width and a height of at least 1 and is resized to a width and a
    height of at least 1 (the sizes the image library accepts), the
    constructor with the hue distribution succeeds, silently, with an image
    that has no dominant colour, and [is_bw], [get_sort_metric] and
    [generate_filename] raise [IndexError] on it. *)
Theorem init_negative_n_colors path resize_long_axis n h opened :
  image_open path = Ok opened ->
  1 <= (pil_size opened).1 /\ 1 <= (pil_size opened).2 ->
  1 <= (resized_size opened resize_long_axis).1 /\
  1 <= (resized_size opened resize_long_axis).2 ->
  n < 0 ->
  exists img,
    init path resize_long_axis HUE_DIST (Some n) h = ([], Ok img) /\
    n_colors img = n /\
    dominant_colors_rgb img = [] /\
    dominant_colors_hsv img = [] /\
    is_bw img = Raise IndexError /\
    get_sort_metric img = Raise IndexError /\
    (forall index base, generate_filename img index base = Raise IndexError).
Proof.
  intros Hopen _ _ Hn. rewrite (init_HUE_DIST _ _ _ _ _ Hopen). cbv zeta.
  assert (Hchosen : chosen_n_colors (resized_image opened resize_long_axis) (Some n) h = n).
  { unfold chosen_n_colors. destruct (Z.eqb_spec n 0); [lia | reflexivity]. }
  rewrite Hchosen. destruct (Z.ltb_spec 1 n) as [?|_]; [lia|].
  rewrite hue_dist_without_colors by lia. cbn [io_bind ret app fst snd].
  eexists. split; [reflexivity|]. cbn. repeat split.
Qed.

(** X12. With at least one colour requested and enough buckets, the first
    colour the extractor emits comes from a bucket of the distribution that
    no other bucket exceeds in population. *)
Theorem hue_dist_first_is_most_populous im n :
  1 <= n <= Z.of_nat (length (compute_hue_dist (get_as_array im true))) ->
  exists out top others,
    get_dominant_colors_hue_dist im n
    = (out, Ok (hsv_to_rgb (normalize_8bit_hsv (bucket_color top :: others)),
                normalize_8bit_hsv (bucket_color top :: others))) /\
    top ∈ compute_hue_dist (get_as_array im true) /\
    (forall bucket, bucket ∈ compute_hue_dist (get_as_array im true) ->
                    (population bucket <= population top)%nat) /\
    length others = (Z.to_nat n - 1)%nat.
Proof.
  intros Hn. set (hue_dist := compute_hue_dist (get_as_array im true)) in *.
  pose proof (ranked_stable_sort hue_dist) as (Hperm & Hsorted & _).
  pose proof (ranked_length hue_dist) as Hlen.
  rewrite get_dominant_colors_hue_dist_inside by (fold hue_dist; lia). fold hue_dist.
  destruct (ranked hue_dist) as [|top rest] eqn:Hranked; [simpl in Hlen; lia|].
  destruct (Z.to_nat n) as [|m] eqn:Hm; [lia|]. cbn [take map].
  eexists _, top, _. split; [reflexivity|]. split.
  - rewrite <- Hperm. apply list_elem_of_here.
  - split.
    + intros bucket Hin. rewrite <- Hperm in Hin.
      assert (Htrans : Transitive (fun a b : Z * list pixel =>
                                     (population b <= population a)%nat))
        by (intros a b c; lia).
      apply (Sorted_StronglySorted Htrans) in Hsorted.
      apply StronglySorted_inv in Hsorted as [_ Hall].
      apply elem_of_cons in Hin as [->|Hin]; [lia|].
      by apply (proj1 (Forall_forall _ _) Hall).
    + rewrite length_map, length_take_le; [lia|]. simpl in Hlen. lia.
Qed.

Lemma bucket_warnings_no_pixels buckets :
  Forall (fun ev => exists hue, ev = Warn_no_pixels hue) (flat_map bucket_warning buckets).
Proof.
  induction buckets as [|b buckets IH]; simpl; [constructor|].
  apply Forall_app. split; [|exact IH].
  unfold bucket_warning. destruct (0 <? population b)%nat; repeat constructor. eauto.
Qed.

Lemma hue_dist_Ok_warnings im n out colors :
  get_dominant_colors_hue_dist im n = (out, Ok colors) ->
  Forall (fun ev => exists hue, ev = Warn_no_pixels hue) out.
Proof.
  intros Hrun.
  set (ranking := ranked (compute_hue_dist (get_as_array im true))).
  destruct (decide (Z.to_nat n <= length ranking)%nat) as [Hin|Hout].
  - rewrite (get_dominant_colors_hue_dist_inside im n Hin) in Hrun.
    injection Hrun as <- _. apply bucket_warnings_no_pixels.
  - rewrite (get_dominant_colors_hue_dist_overflow im n) in Hrun; [discriminate|].
    fold ranking. lia.
Qed.

(** X13. What a constructed image records: the image was opened, the
    algorithm is one of the two known ones, the path and the algorithm are the
    arguments, the orientation is vertical exactly when the opened image is
    higher than wide, width and height are the size of the stored (resized)
    image, and the model, the assignment and the histogram are set exactly
    for k-means. *)
Theorem init_Ok_records path resize_long_axis algorithm n_colors_arg h out img :
  init path resize_long_axis algorithm n_colors_arg h = (out, Ok img) ->
  exists opened,
    image_open path = Ok opened /\
    algorithm <> OTHER_ALGORITHM /\
    image_path img = path /\
    dominant_color_algorithm img = algorithm /\
    (orientation img = VERTICAL <-> (pil_size opened).1 < (pil_size opened).2) /\
    pil_image img = resized_image opened resize_long_axis /\
    (width img, height img) = pil_size (pil_image img) /\
    n_colors img = chosen_n_colors (pil_image img) n_colors_arg h /\
    (is_Some (model img) <-> algorithm = KMEANS) /\
    (is_Some (predicted img) <-> algorithm = KMEANS) /\
    (is_Some (cluster_histogram img) <-> algorithm = KMEANS).
Proof.
  intros Hinit.
  destruct (image_open path) as [opened|e] eqn:Hopen;
    [|by rewrite (init_open_error _ _ _ _ _ _ Hopen) in Hinit].
  exists opened. split; [reflexivity|].
  assert (Horient : orientation_of opened = VERTICAL
                    <-> (pil_size opened).1 < (pil_size opened).2).
  { unfold orientation_of.
    destruct (Z.ltb_spec (pil_size opened).1 (pil_size opened).2); split; (done || lia). }
  destruct algorithm.
  - rewrite (init_HUE_DIST _ _ _ _ _ Hopen) in Hinit. cbv zeta in Hinit.
    destruct (1 <? _); cbn [io_bind emit ret] in Hinit;
      destruct (get_dominant_colors_hue_dist _ _) as [out1 [colors|e]];
      cbn [io_bind ret] in Hinit; try discriminate;
      injection Hinit as _ <-; cbn;
      (split; [done|]); (split; [done|]); (split; [done|]); (split; [exact Horient|]);
      (split; [done|]); (split; [symmetry; apply surjective_pairing|]); (split; [done|]);
      repeat split; try discriminate; by intros [x Hx].
  - rewrite (init_KMEANS _ _ _ _ _ Hopen) in Hinit. cbv zeta in Hinit.
    destruct (get_dominant_colors_kmeans _ _) as [fitted|e];
      cbn [lift io_bind ret] in Hinit; [|discriminate].
    injection Hinit as _ <-. cbn.
    (split; [done|]); (split; [done|]); (split; [done|]); (split; [exact Horient|]);
      (split; [done|]); (split; [symmetry; apply surjective_pairing|]); (split; [done|]);
      repeat split; eauto.
  - by rewrite (init_OTHER_ALGORITHM _ _ _ _ _ Hopen) in Hinit.
Qed.

(** X14. What a successful construction logs: first the similar-colours
    warning, exactly when the algorithm is the hue distribution and the
    colour count is above 1; after it only no-pixels warnings, and with
    k-means nothing. *)
Theorem init_Ok_log path resize_long_axis algorithm n_colors_arg h out img :
  init path resize_long_axis algorithm n_colors_arg h = (out, Ok img) ->
  exists out',
    out = (if 1 <? n_colors img
           then match algorithm with
                | HUE_DIST => [Warn_similar_colors n_colors_arg]
                | _ => []
                end
           else []) ++ out' /\
    Forall (fun ev => exists hue, ev = Warn_no_pixels hue) out' /\
    (algorithm = KMEANS -> out' = []).
Proof.
  intros Hinit.
  destruct (image_open path) as [opened|e] eqn:Hopen;
    [|by rewrite (init_open_error _ _ _ _ _ _ Hopen) in Hinit].
  destruct algorithm.
  - rewrite (init_HUE_DIST _ _ _ _ _ Hopen) in Hinit. cbv zeta in Hinit.
    destruct (1 <? chosen_n_colors _ _ _) eqn:Hgt; cbn [io_bind emit ret] in Hinit;
      destruct (get_dominant_colors_hue_dist _ _) as [out1 [colors|e]] eqn:Hrun;
      cbn [io_bind ret] in Hinit; try discriminate;
      injection Hinit as <- <-; cbn [n_colors]; rewrite Hgt;
      exists out1; rewrite ?app_nil_r;
      (split; [reflexivity|]); (split; [|discriminate]);
      exact (hue_dist_Ok_warnings _ _ _ _ Hrun).
  - rewrite (init_KMEANS _ _ _ _ _ Hopen) in Hinit. cbv zeta in Hinit.
    destruct (get_dominant_colors_kmeans _ _) as [fitted|e];
      cbn [lift io_bind ret] in Hinit; [|discriminate].
    injection Hinit as <- _. exists []. split; [by destruct (1 <? _)|].
    split; [constructor | done].
  - by rewrite (init_OTHER_ALGORITHM _ _ _ _ _ Hopen) in Hinit.
Qed.

(** A comprehension over [target_colors[i]] fails with [IndexError] only,
    and its results are centres. *)
Lemma comprehension_getitem_Raise {A} (xs : list A) labels e :
  comprehension (getitem xs) labels = Raise e -> e = IndexError.
Proof.
  induction labels as [|i labels IH]; simpl; [discriminate|].
  unfold getitem at 1. destruct (xs !! i); simpl; [|by intros [= <-]].
  destruct (comprehension (getitem xs) labels); simpl; [discriminate|].
  intros [= <-]. by apply IH.
Qed.

Lemma comprehension_getitem_Ok {A} (xs : list A) labels ys :
  comprehension (getitem xs) labels = Ok ys ->
  length ys = length labels /\ Forall (fun y => y ∈ xs) ys.
Proof.
  revert ys. induction labels as [|i labels IH]; simpl; intros ys.
  - intros [= <-]. split; [reflexivity | constructor].
  - unfold getitem at 1. destruct (xs !! i) as [x|] eqn:Hx; simpl; [|discriminate].
    destruct (comprehension (getitem xs) labels) as [ys'|]; simpl; [|discriminate].
    intros [= <-]. destruct (IH ys' eq_refl) as [Hlen Hall].
    split; [simpl; by rewrite Hlen|]. constructor; [|exact Hall].
    by apply list_elem_of_lookup_2 in Hx.
Qed.

Lemma reshape_Raise {X} (a : list X) r c e :
  Np.reshape a r c = Raise e -> e = ValueError.
Proof. unfold Np.reshape. destruct (_ && _); [discriminate | by intros [= <-]]. Qed.

Lemma reshape_rows_Raise {X} (a : list X) r e :
  Np.reshape_rows a r = Raise e -> e = ValueError.
Proof. unfold Np.reshape_rows. destruct (_ && _); [discriminate | by intros [= <-]]. Qed.

(** X15. On an image constructed with k-means [get_remapped_image] never
    fails for a missing model: it returns an image or raises [ValueError]
    (a reshape) or [IndexError] (an assignment outside the centres). *)
Theorem remap_after_kmeans path resize_long_axis n_colors_arg h out img other :
  init path resize_long_axis KMEANS n_colors_arg h = (out, Ok img) ->
  (exists im, get_remapped_image img other = Ok im) \/
  get_remapped_image img other = Raise ValueError \/
  get_remapped_image img other = Raise IndexError.
Proof.
  intros Hinit.
  destruct (init_Ok_records _ _ _ _ _ _ _ Hinit)
    as (opened & _ & _ & _ & _ & _ & _ & _ & _ & Hmodel & Hpred & _).
  destruct (proj2 Hmodel eq_refl) as [fitted Hfitted].
  destruct (proj2 Hpred eq_refl) as [labels Hlabels].
  unfold get_remapped_image. rewrite Hfitted. cbn [getattr Py.bind].
  assert (Hrest : forall other_predicted,
    let rest :=
      Py.bind (comprehension (getitem (cluster_centers_ fitted)) other_predicted)
        (fun remapped_image =>
           Py.bind (Np.reshape remapped_image (height img) (width img))
             (fun reshaped =>
                Ok {| pil_size := (width img, height img);
                      pil_pixels := map np_uint8 (data reshaped) |})) in
    (exists im, rest = Ok im) \/ rest = Raise ValueError \/ rest = Raise IndexError).
  { intros other_predicted. cbv zeta.
    destruct (comprehension _ other_predicted) as [remapped|e] eqn:Hcomp; cbn [Py.bind].
    - destruct (Np.reshape remapped _ _) as [reshaped|e] eqn:Hre; cbn [Py.bind].
      + left. eauto.
      + right. left. by rewrite (reshape_Raise _ _ _ _ Hre).
    - right. right. by rewrite (comprehension_getitem_Raise _ _ _ Hcomp). }
  destruct other as [other|].
  - destruct (Np.reshape_rows _ _) as [rows|e] eqn:Hrows; cbn [Py.bind].
    + apply Hrest.
    + right. left. by rewrite (reshape_rows_Raise _ _ _ Hrows).
  - rewrite Hlabels. cbn [getattr Py.bind]. apply Hrest.
Qed.

(** X16. Whenever [get_remapped_image] returns, the image has the width
    and height of [self], as many pixels as that size needs, and every pixel
    is the 8-bit form of a centre of the model of [self]. *)
Theorem get_remapped_image_Ok self other im :
  get_remapped_image self other = Ok im ->
  pil_size im = (width self, height self) /\
  Z.of_nat (length (pil_pixels im)) = height self * width self /\
  exists fitted,
    model self = Some fitted /\
    Forall (fun p => exists c, c ∈ cluster_centers_ fitted /\ p = np_uint8 c)
           (pil_pixels im).
Proof.
  unfold get_remapped_image.
  destruct (model self) as [fitted|]; [|discriminate]. cbn [getattr Py.bind].
  match goal with |- Py.bind ?m _ = _ -> _ => destruct m as [labels|e] end;
    [|discriminate]. cbn [Py.bind].
  destruct (comprehension _ labels) as [remapped|e] eqn:Hcomp; [|discriminate].
  cbn [Py.bind]. unfold Np.reshape.
  destruct (_ && _) eqn:Hcheck; [|discriminate]. cbn [Py.bind data].
  intros [= <-]. cbn [pil_size pil_pixels].
  apply andb_true_iff in Hcheck as [_ Hlen%Z.eqb_eq].
  split; [reflexivity|]. split; [by rewrite length_map|].
  exists fitted. split; [reflexivity|].
  apply comprehension_getitem_Ok in Hcomp as [_ Hall].
  apply Forall_forall. intros p (c & -> & Hc)%list_elem_of_fmap.
  exists c. split; [|reflexivity]. by apply (proj1 (Forall_forall _ _) Hall).
Qed.

(** X17. Remapping another image whose number of pixels differs from that
    of [self] raises [ValueError], when the model assigns one centre of its
    own to every pixel of the other image. *)
Theorem remap_other_pixel_count_mismatch self other fitted remapped :
  model self = Some fitted ->
  0 <= height other * width other ->
  Z.of_nat (length (pil_pixels (pil_image other))) = height other * width other ->
  length (kmeans_predict fitted
            {| rows := height other * width other; cols := None;
               data := pil_pixels (pil_image other) |})
  = length (pil_pixels (pil_image other)) ->
  comprehension (getitem (cluster_centers_ fitted))
    (kmeans_predict fitted
       {| rows := height other * width other; cols := None;
          data := pil_pixels (pil_image other) |}) = Ok remapped ->
  height other * width other <> height self * width self ->
  get_remapped_image self (Some other) = Raise ValueError.
Proof. apply get_remapped_image_other_count. Qed.

End Constructor.

Section Examples.
Import StandInLaws.

Lemma init_Ok_records_witness :
  init {| name := "square.jpg" |} None KMEANS (Some 2) tt = ([], Ok StandIn.square_analyzed) /\
  exists opened,
    image_open {| name := "square.jpg" |} = Ok opened /\
    KMEANS <> OTHER_ALGORITHM /\
    image_path StandIn.square_analyzed = {| name := "square.jpg" |} /\
    dominant_color_algorithm StandIn.square_analyzed = KMEANS /\
    (orientation StandIn.square_analyzed = VERTICAL
     <-> (pil_size opened).1 < (pil_size opened).2) /\
    pil_image StandIn.square_analyzed = resized_image opened None /\
    (width StandIn.square_analyzed, height StandIn.square_analyzed)
    = pil_size (pil_image StandIn.square_analyzed) /\
    n_colors StandIn.square_analyzed
    = chosen_n_colors (pil_image StandIn.square_analyzed) (Some 2) tt /\
    (is_Some (model StandIn.square_analyzed) <-> KMEANS = KMEANS) /\
    (is_Some (predicted StandIn.square_analyzed) <-> KMEANS = KMEANS) /\
    (is_Some (cluster_histogram StandIn.square_analyzed) <-> KMEANS = KMEANS).
Proof.
  assert (Hinit : init {| name := "square.jpg" |} None KMEANS (Some 2) tt
                  = ([], Ok StandIn.square_analyzed)) by (vm_compute; reflexivity).
  split; [exact Hinit|]. exact (init_Ok_records _ _ _ _ _ _ _ Hinit).
Defined.

Lemma init_Ok_log_witness :
  init {| name := "square.jpg" |} None KMEANS (Some 2) tt = ([], Ok StandIn.square_analyzed) /\
  exists out',
    [] = (if 1 <? n_colors StandIn.square_analyzed
          then match KMEANS with
               | HUE_DIST => [Warn_similar_colors (Some 2)]
               | _ => []
               end
          else []) ++ out' /\
    Forall (fun ev => exists hue, ev = Warn_no_pixels hue) out' /\
    (KMEANS = KMEANS -> out' = []).
Proof.
  assert (Hinit : init {| name := "square.jpg" |} None KMEANS (Some 2) tt
                  = ([], Ok StandIn.square_analyzed)) by (vm_compute; reflexivity).
  split; [exact Hinit|]. exact (init_Ok_log _ _ _ _ _ _ _ Hinit).
Defined.

Lemma remap_after_kmeans_witness :
  init {| name := "square.jpg" |} None KMEANS (Some 2) tt = ([], Ok StandIn.square_analyzed) /\
  ((exists im, get_remapped_image StandIn.square_analyzed (Some StandIn.strip_analyzed) = Ok im) \/
   get_remapped_image StandIn.square_analyzed (Some StandIn.strip_analyzed) = Raise ValueError \/
   get_remapped_image StandIn.square_analyzed (Some StandIn.strip_analyzed) = Raise IndexError).
Proof.
  assert (Hinit : init {| name := "square.jpg" |} None KMEANS (Some 2) tt
                  = ([], Ok StandIn.square_analyzed)) by (vm_compute; reflexivity).
  split; [exact Hinit|].
  exact (remap_after_kmeans _ _ _ _ _ _ (Some StandIn.strip_analyzed) Hinit).
Defined.

Lemma get_remapped_image_Ok_witness :
  get_remapped_image StandIn.square_analyzed None
  = Ok {| pil_size := (2, 2);
          pil_pixels := [(255, 0, 0); (255, 0, 0); (0, 0, 255); (255, 0, 0)] |} /\
  pil_size {| pil_size := (2, 2);
              pil_pixels := [(255, 0, 0); (255, 0, 0); (0, 0, 255); (255, 0, 0)] |}
  = (width StandIn.square_analyzed, height StandIn.square_analyzed) /\
  Z.of_nat (length (pil_pixels
                      {| pil_size := (2, 2);
                         pil_pixels := [(255, 0, 0); (255, 0, 0); (0, 0, 255); (255, 0, 0)] |}))
  = height StandIn.square_analyzed * width StandIn.square_analyzed /\
  exists fitted,
    model StandIn.square_analyzed = Some fitted /\
    Forall (fun p => exists c, c ∈ cluster_centers_ fitted /\ p = np_uint8 c)
           (pil_pixels
              {| pil_size := (2, 2);
                 pil_pixels := [(255, 0, 0); (255, 0, 0); (0, 0, 255); (255, 0, 0)] |}).
Proof.
  assert (Hrun : get_remapped_image StandIn.square_analyzed None
    = Ok {| pil_size := (2, 2);
            pil_pixels := [(255, 0, 0); (255, 0, 0); (0, 0, 255); (255, 0, 0)] |})
    by (vm_compute; reflexivity).
  split; [exact Hrun|]. exact (get_remapped_image_Ok _ _ _ Hrun).
Defined.

Lemma remap_other_pixel_count_mismatch_witness :
  (model StandIn.square_analyzed
   = Some {| cluster_centers_ := [(0, 0, 255)%Q; (255, 0, 0)%Q];
             labels_ := [1; 1; 0; 1]%nat |} /\
   0 <= height StandIn.teal_analyzed * width StandIn.teal_analyzed /\
   Z.of_nat (length (pil_pixels (pil_image StandIn.teal_analyzed)))
   = height StandIn.teal_analyzed * width StandIn.teal_analyzed /\
   length (kmeans_predict
             {| cluster_centers_ := [(0, 0, 255)%Q; (255, 0, 0)%Q];
                labels_ := [1; 1; 0; 1]%nat |}
             {| rows := height StandIn.teal_analyzed * width StandIn.teal_analyzed;
                cols := None;
                data := pil_pixels (pil_image StandIn.teal_analyzed) |})
   = length (pil_pixels (pil_image StandIn.teal_analyzed)) /\
   comprehension (getitem [(0, 0, 255)%Q; (255, 0, 0)%Q])
     (kmeans_predict
        {| cluster_centers_ := [(0, 0, 255)%Q; (255, 0, 0)%Q];
           labels_ := [1; 1; 0; 1]%nat |}
        {| rows := height StandIn.teal_analyzed * width StandIn.teal_analyzed;
           cols := None;
           data := pil_pixels (pil_image StandIn.teal_analyzed) |})
   = Ok [(255, 0, 0)%Q] /\
   height StandIn.teal_analyzed * width StandIn.teal_analyzed
   <> height StandIn.square_analyzed * width StandIn.square_analyzed) /\
  get_remapped_image StandIn.square_analyzed (Some StandIn.teal_analyzed)
  = Raise ValueError.
Proof.
  split.
  - repeat split; try (vm_compute; reflexivity); vm_compute; discriminate.
  - apply (remap_other_pixel_count_mismatch StandIn.square_analyzed StandIn.teal_analyzed
             {| cluster_centers_ := [(0, 0, 255)%Q; (255, 0, 0)%Q];
                labels_ := [1; 1; 0; 1]%nat |}
             [(255, 0, 0)%Q]);
      try (vm_compute; reflexivity); vm_compute; discriminate.
Defined.

Lemma hue_dist_without_colors_witness :
  -1 <= 0 /\ get_dominant_colors_hue_dist StandIn.dusk (-1) = ([], Ok ([], [])).
Proof.
  assert (Hn : -1 <= 0) by lia.
  split; [exact Hn|]. exact (hue_dist_without_colors StandIn.dusk (-1) Hn).
Defined.

Lemma init_negative_n_colors_witness :
  (image_open {| name := "teal.jpg" |} = Ok StandIn.teal /\
   (1 <= (pil_size StandIn.teal).1 /\ 1 <= (pil_size StandIn.teal).2) /\
   (1 <= (resized_size StandIn.teal None).1 /\ 1 <= (resized_size StandIn.teal None).2) /\
   -1 < 0) /\
  exists img,
    init {| name := "teal.jpg" |} None HUE_DIST (Some (-1)) tt = ([], Ok img) /\
    n_colors img = -1 /\
    dominant_colors_rgb img = [] /\
    dominant_colors_hsv img = [] /\
    is_bw img = Raise IndexError /\
    get_sort_metric img = Raise IndexError /\
    (forall index base, generate_filename img index base = Raise IndexError).
Proof.
  assert (Hopen : image_open {| name := "teal.jpg" |} = Ok StandIn.teal) by reflexivity.
  assert (Hsize : 1 <= (pil_size StandIn.teal).1 /\ 1 <= (pil_size StandIn.teal).2)
    by (vm_compute; split; discriminate).
  assert (Hresized : 1 <= (resized_size StandIn.teal None).1 /\
                     1 <= (resized_size StandIn.teal None).2)
    by (vm_compute; split; discriminate).
  assert (Hn : -1 < 0) by lia.
  split; [exact (conj Hopen (conj Hsize (conj Hresized Hn)))|].
  exact (init_negative_n_colors {| name := "teal.jpg" |} None (-1) tt StandIn.teal
           Hopen Hsize Hresized Hn).
Defined.

Lemma hue_dist_first_is_most_populous_witness :
  1 <= 2 <= Z.of_nat (length (compute_hue_dist (get_as_array StandIn.dusk true))) /\
  exists out top others,
    get_dominant_colors_hue_dist StandIn.dusk 2
    = (out, Ok (hsv_to_rgb (normalize_8bit_hsv (bucket_color top :: others)),
                normalize_8bit_hsv (bucket_color top :: others))) /\
    top ∈ compute_hue_dist (get_as_array StandIn.dusk true) /\
    (forall bucket, bucket ∈ compute_hue_dist (get_as_array StandIn.dusk true) ->
                    (population bucket <= population top)%nat) /\
    length others = (Z.to_nat 2 - 1)%nat.
Proof.
  assert (Hn : 1 <= 2 <= Z.of_nat (length (compute_hue_dist (get_as_array StandIn.dusk true))))
    by (vm_compute; split; discriminate).
  split; [exact Hn|]. exact (hue_dist_first_is_most_populous StandIn.dusk 2 Hn).
Defined.

End Examples.
End ConstructionMore.
